(** * find_largest_tags: tag aggregation and ranking report

    A shallow embedding of [extra/find_largest_tags.py] and the proofs of
    its aggregation, caching, ranking, truncation and error properties.

    The script is one function, [main].  Its effects are the standard
    error and standard output streams, the read-only queries on the store
    and the [stat] calls on the filesystem.  They are modelled by a trace
    of events paired with either an exception or a value. *)

From Stdlib Require Import ZArith Ascii String List Sorted Permutation Lia.
From stdpp Require Import base option list sorting gmap strings fin_maps fin_sets.

Local Open Scope Z_scope.

(** ** Python built-ins used by the script *)

Module Py.

(** The built-in [int] on a [str] is not part of the script: what it
    accepts depends on the interpreter (its Unicode tables, its bound on
    the number of digits).  A run therefore takes it from its world, see
    [builtin_int] below, and every theorem about the script holds for
    whatever that function is.

    [int_ascii] is the interpreter the scenarios are run with.  It reads
    the ASCII decimal literals as CPython does with its default settings:
    the white space [" \t\n\v\f\r"] around the literal is stripped, one
    optional sign is read, then decimal digits, where single underscores
    may separate digits, and more than 4300 digits are refused.  [None]
    stands for [ValueError].  It refuses every string with another byte;
    CPython accepts some of those (decimal digits and white space outside
    ASCII). *)
Definition is_space (a : ascii) : bool :=
  let n := nat_of_ascii a in
  ((9 <=? n)%nat && (n <=? 13)%nat) || (n =? 32)%nat.

Definition digit_of (a : ascii) : option Z :=
  let n := Z.of_nat (nat_of_ascii a) in
  if (48 <=? n) && (n <=? 57) then Some (n - 48) else None.

Fixpoint lstrip (l : list ascii) : list ascii :=
  match l with
  | a :: l' => if is_space a then lstrip l' else l
  | [] => []
  end.

Definition strip (l : list ascii) : list ascii :=
  rev (lstrip (rev (lstrip l))).

Fixpoint digits (acc : Z) (after_digit : bool) (l : list ascii) : option Z :=
  match l with
  | [] => if after_digit then Some acc else None
  | a :: l' =>
      if Ascii.eqb a "_"%char
      then (if after_digit then digits acc false l' else None)
      else match digit_of a with
           | Some d => digits (10 * acc + d) true l'
           | None => None
           end
  end.

(** The default of [sys.get_int_max_str_digits()]. *)
Definition max_str_digits : nat := 4300.

Definition digit_count (l : list ascii) : nat :=
  length (filter (λ a, is_Some (digit_of a)) l).

Definition int_ascii (s : string) : option Z :=
  let l := strip (list_ascii_of_string s) in
  if (max_str_digits <? digit_count l)%nat then None
  else match l with
       | a :: l' =>
           if Ascii.eqb a "-"%char then Z.opp <$> digits 0 false l'
           else if Ascii.eqb a "+"%char then digits 0 false l'
           else digits 0 false (a :: l')
       | [] => None
       end.

(** Truthiness of the value of [os.environ.get(name)]: [None] and the
    empty string are false, every other string is true. *)
Definition truthy (v : option string) : bool :=
  match v with
  | None => false
  | Some EmptyString => false
  | Some (String _ _) => true
  end.

(** The slice [l[:n]].  A negative [n] counts from the end and is clamped
    at the start of the list. *)
Definition slice_to {A} (l : list A) (n : Z) : list A :=
  if 0 <=? n then take (Z.to_nat n) l
  else take (length l - Z.to_nat (- n))%nat l.

(** [sum] of a sequence of integers. *)
Definition sum (l : list Z) : Z := foldr Z.add 0 l.

(** [sorted(l, key=key, reverse=reverse)].  The built-in is a stable
    sort on the keys, and with [reverse=True] it still keeps elements of
    equal key in their original order.  [sorted_unique] below shows that
    these requirements determine the result, so that the insertion sort
    written here returns what the built-in returns. *)
Section sorted.
Context {A : Type} (key : A → Z) (reverse : bool).

Definition key_le (x y : A) : bool :=
  if reverse then key y <=? key x else key x <=? key y.

Fixpoint insert (x : A) (l : list A) : list A :=
  match l with
  | [] => [x]
  | y :: l' => if key_le x y then x :: l else y :: insert x l'
  end.

Definition sorted (l : list A) : list A := foldr insert [] l.

(** The order the result is in: ascending keys, descending keys when
    reversed. *)
Definition in_order (x y : A) : Prop :=
  if reverse then key y ≤ key x else key x ≤ key y.
End sorted.

(** A [dict], which iterates in the order in which its keys were first
    inserted: an association list with unique keys. *)
Section dict.
Context {K V : Type} `{EqDecision K}.

Fixpoint get (d : list (K * V)) (k : K) : option V :=
  match d with
  | [] => None
  | (k', v) :: d' => if decide (k = k') then Some v else get d' k
  end.

(** [d[k] = v] *)
Fixpoint set (d : list (K * V)) (k : K) (v : V) : list (K * V) :=
  match d with
  | [] => [(k, v)]
  | (k', v') :: d' =>
      if decide (k = k') then (k, v) :: d' else (k', v') :: set d' k v
  end.

Definition keys (d : list (K * V)) : list K := d.*1.
End dict.

End Py.

(** ** The store, the filesystem and the process environment *)

(** The four tables the script reads.  Rows are kept in the order in
    which the store returns them. *)
Record Db := {
  files : list (string * string);      (* file_hash, local_path *)
  tag_files : list (string * string);  (* file_hash, core_hash *)
  hashes : list string;                (* id *)
  tag_names : list (string * string)   (* core_hash, tag_text *)
}.

(** [select hashes.id as core_hash from tag_files join hashes
     on tag_files.core_hash = hashes.id where tag_files.file_hash = ?] *)
Definition select_core_hash (db : Db) (file_hash : string) : list string :=
  tf ← tag_files db;
  if decide (tf.1 = file_hash)
  then filter (λ id, id = tf.2) (hashes db)
  else [].

(** [select tag_text from tag_names where core_hash = ?] *)
Definition select_tag_text (db : Db) (core_hash : string) : list string :=
  (filter (λ tn, tn.1 = core_hash) (tag_names db)).*2.

(** [cursor.fetchone()] *)
Definition fetchone {A} (rows : list A) : option A := head rows.

Record World := {
  argv : list string;             (* sys.argv *)
  environ : gmap string string;   (* os.environ *)
  store : option Db;              (* ~/awtf.db, None when it cannot be opened *)
  fs : string → option N;         (* st_size of a path, None when stat fails *)
  builtin_int : string → option Z (* int(s) of the interpreter, None for ValueError *)
}.

(** ** Effects *)

Inductive exn :=
  | ValueError (literal : string)
  | OperationalError
  | OSError (path : string)
  | TypeError (core_hash : string).

Inductive diag :=
  | DiagLimit (limit : Z)
  | DiagFetched
  | DiagSorted.

Inductive query :=
  | QFiles
  | QTagsOf (file_hash : string)
  | QTagText (core_hash : string).

(** One line of the report.  The third field of the printed line is the
    float [used_bytes / 1024 / 1024 / 1024]; the record keeps the integer
    it is computed from. *)
Record report_line := {
  rl_core_hash : string;
  rl_tag_text : string;
  rl_used_bytes : Z;
  rl_count : nat
}.

Inductive event :=
  | EvStderr (d : diag)
  | EvQuery (q : query)
  | EvStat (path : string)
  | EvStdout (r : report_line).

Definition Run (A : Type) : Type := list event * (exn + A).

#[global] Instance run_ret : MRet Run := λ A a, ([], inr a).

#[global] Instance run_bind : MBind Run := λ A B f m,
  match m with
  | (tr, inl e) => (tr, inl e)
  | (tr, inr a) => let '(tr', r) := f a in (tr ++ tr', r)
  end.

Definition emit (ev : event) : Run unit := ([ev], inr tt).

Definition raise {A} (e : exn) : Run A := ([], inl e).

(** [for x in l: s = body(s, x)] *)
Fixpoint for_each {S A} (body : S → A → Run S) (s : S) (l : list A) : Run S :=
  match l with
  | [] => mret s
  | x :: l' => s' ← body s x; for_each body s' l'
  end.

(** [filter(p, l)] consumed to the end, where [p] may raise. *)
Fixpoint filterM {A} (p : A → Run bool) (l : list A) : Run (list A) :=
  match l with
  | [] => mret []
  | x :: l' =>
      b ← p x;
      r ← filterM p l';
      mret (if b : bool then x :: r else r)
  end.

(** [int(s)] *)
Definition int (w : World) (s : string) : Run Z :=
  match builtin_int w s with
  | Some n => mret n
  | None => raise (ValueError s)
  end.

(** [Path(local_path).stat().st_size] *)
Definition stat (w : World) (local_path : string) : Run Z :=
  _ ← emit (EvStat local_path);
  match fs w local_path with
  | Some n => mret (Z.of_N n)
  | None => raise (OSError local_path)
  end.

(** [sqlite3.connect(..., uri=True)] in read-only mode *)
Definition connect (w : World) : Run Db :=
  match store w with
  | Some db => mret db
  | None => raise OperationalError
  end.

(** ** The script *)

Section main.
Context (w : World).

(** Lines 13-16: the limit is the first argument, 50 when there is none. *)
Definition parse_limit : Run Z :=
  match argv w !! 1%nat with
  | Some a => int w a
  | None => mret 50
  end.

(** Lines 55-58: add [local_path] to the set of [core_hash]. *)
Definition tagmap_add (tagmap : list (string * gset string))
    (core_hash local_path : string) : list (string * gset string) :=
  match Py.get tagmap core_hash with
  | None => Py.set tagmap core_hash {[local_path]}
  | Some paths => Py.set tagmap core_hash (paths ∪ {[local_path]})
  end.

(** Lines 38-58: the body of the loop over the rows of [files]. *)
Definition fetch_row (db : Db)
    (st : gmap string Z * list (string * gset string))
    (row : string * string) : Run (gmap string Z * list (string * gset string)) :=
  let '(stat_map, tagmap) := st in
  let '(file_hash, local_path) := row in
  stat_map ← match stat_map !! local_path with
             | Some _ => mret stat_map
             | None => size ← stat w local_path;
                       mret (<[local_path := size]> stat_map)
             end;
  _ ← emit (EvQuery (QTagsOf file_hash));
  mret (stat_map,
        foldl (λ tagmap core_hash, tagmap_add tagmap core_hash local_path)
              tagmap (select_core_hash db file_hash)).

(** Lines 26-58 *)
Definition fetch (db : Db) : Run (gmap string Z * list (string * gset string)) :=
  _ ← emit (EvQuery QFiles);
  for_each (fetch_row db) (∅, []) (files db).

Section ranking.
Context (stat_map : gmap string Z) (tagmap : list (string * gset string)).

(** [tagmap[core_hash]]; every key that is looked up is a key of
    [tagmap], see [paths_of_key]. *)
Definition paths_of (core_hash : string) : gset string :=
  default ∅ (Py.get tagmap core_hash).

(** Lines 65-66.  Every path that is looked up is in [stat_map], see
    [fetch_stat_map_closed]. *)
Definition _sort_by_total_size (core_hash : string) : Z :=
  Py.sum ((λ p, stat_map !!! p) <$> elements (paths_of core_hash)).

(** Lines 68-69 *)
Definition _sort_by_count (core_hash : string) : Z :=
  Z.of_nat (size (paths_of core_hash)).

(** Lines 71-85 *)
Definition rank (sort_by_count_with_min_gb : option string) : Run (list string) :=
  let keys := Py.keys tagmap in
  let by_size := mret (Py.sorted _sort_by_total_size true keys) in
  match sort_by_count_with_min_gb with
  | Some min_gb =>
      if Py.truthy sort_by_count_with_min_gb then
        keys ← filterM (λ k,
                  let total := _sort_by_total_size k in
                  n ← int w min_gb;
                  mret (n * 1024 * 1024 * 1024 <=? total)) keys;
        mret (Py.sorted _sort_by_count false keys)
      else by_size
  | None => by_size
  end.

(** Lines 87-96: the body of the loop over the ranked keys. *)
Definition report_row (db : Db) (_ : unit) (core_hash : string) : Run unit :=
  _ ← emit (EvQuery (QTagText core_hash));
  match fetchone (select_tag_text db core_hash) with
  | None => raise (TypeError core_hash)
  | Some tag_text =>
      emit (EvStdout {| rl_core_hash := core_hash;
                        rl_tag_text := tag_text;
                        rl_used_bytes := _sort_by_total_size core_hash;
                        rl_count := size (paths_of core_hash) |})
  end.

Definition report (db : Db) (sorted_tag_keys : list string) : Run unit :=
  for_each (report_row db) tt sorted_tag_keys.
End ranking.

(** Line 63: [os.environ.get("SORT_BY_COUNT_WITH_MIN_GB")] *)
Definition floor_flag : option string :=
  environ w !! "SORT_BY_COUNT_WITH_MIN_GB"%string.

(** Lines 13-85: everything up to the ranking, with the locals the
    report loop reads. *)
Definition ranking :
    Run (Z * Db * gmap string Z * list (string * gset string) * list string) :=
  limit ← parse_limit;
  _ ← emit (EvStderr (DiagLimit limit));
  db ← connect w;
  '(stat_map, tagmap) ← fetch db;
  _ ← emit (EvStderr DiagFetched);
  let sort_by_count_with_min_gb := floor_flag in
  sorted_tag_keys ← rank stat_map tagmap sort_by_count_with_min_gb;
  mret (limit, db, stat_map, tagmap, sorted_tag_keys).

Definition main : Run unit :=
  '(limit, db, stat_map, tagmap, sorted_tag_keys) ← ranking;
  _ ← report stat_map tagmap db (Py.slice_to sorted_tag_keys limit);
  emit (EvStderr DiagSorted).
End main.

(** What a run wrote on standard output, and which paths it stat-ed. *)
Definition stdout (tr : list event) : list report_line :=
  omap (λ ev, match ev with EvStdout r => Some r | _ => None end) tr.

Definition stats (tr : list event) : list string :=
  omap (λ ev, match ev with EvStat p => Some p | _ => None end) tr.

Definition emitted (tr : list event) : list string := rl_core_hash <$> stdout tr.

(** ** The quantities of the report's description

    These follow the description of the report (its sections 4.3 and
    4.4), not the script; the script's locals are compared with them
    below. *)

(** The pairs (tag identity, path) in the order in which the nested loops
    over the file rows and over each row's tags meet them. *)
Definition row_encounters (db : Db) (row : string * string) : list (string * string) :=
  (λ core_hash, (core_hash, row.2)) <$> select_core_hash db row.1.

Definition encounters (db : Db) : list (string * string) :=
  files db ≫= row_encounters db.

(** [pathsOf(tag)]: the distinct paths of the file rows that carry the tag. *)
Definition pathsOf (db : Db) (tag : string) : gset string :=
  list_to_set (filter (λ row, tag ∈ select_core_hash db row.1) (files db)).*2.

Definition sizeOf (w : World) (path : string) : Z :=
  Z.of_N (default 0%N (fs w path)).

(** [totalSize(tag)]: the sum of [sizeOf] over [pathsOf(tag)]. *)
Definition totalSize (w : World) (db : Db) (tag : string) : Z :=
  Py.sum (sizeOf w <$> elements (pathsOf db tag)).

(** [fileCount(tag)]: the cardinality of [pathsOf(tag)]. *)
Definition fileCount (db : Db) (tag : string) : nat := size (pathsOf db tag).

(** The first occurrences of a sequence, in order. *)
Fixpoint nub {A} `{EqDecision A} (l : list A) : list A :=
  match l with
  | [] => []
  | x :: l' => x :: filter (λ y, y ≠ x) (nub l')
  end.

(** The aggregated tags, in the order in which they are first met. *)
Definition tags (db : Db) : list string := nub (encounters db).*1.

(** [x] is met in [l] at a position before which neither [x] nor [y]
    occur, and [y] is met later. *)
Definition first_seen_before {A} (l : list A) (x y : A) : Prop :=
  ∃ l1 l2, l = l1 ++ x :: l2 ∧ (x ∉ l1) ∧ (y ∉ l1) ∧ x ≠ y ∧ y ∈ l2.

(** [x] stands before [y] in [l]. *)
Definition before {A} (l : list A) (x y : A) : Prop := sublist [x; y] l.

(** The aggregation record after the pairs [(core_hash, local_path)] have
    been added to [tagmap] one after the other. *)
Definition add_all (tagmap : list (string * gset string))
    (pairs : list (string * string)) : list (string * gset string) :=
  foldl (λ tagmap e, tagmap_add tagmap e.1 e.2) tagmap pairs.

(** A trace in which the engine has not started: only diagnostics, no
    query on the store, no stat and no report line. *)
Definition no_engine_work (tr : list event) : Prop :=
  Forall (λ ev, match ev with EvStderr _ => True | _ => False end) tr.

(** The two ways in which the configuration can be invalid. *)
Definition malformed_limit (w : World) : Prop :=
  ∃ a, argv w !! 1%nat = Some a ∧ builtin_int w a = None.

Definition malformed_floor (w : World) : Prop :=
  ∃ min_gb, floor_flag w = Some min_gb ∧ min_gb ≠ EmptyString ∧
           builtin_int w min_gb = None.

(** The diagnostics a run wrote on standard error, the file hashes whose
    tags it asked the store for, and the tags whose display text it asked
    for, each in order. *)
Definition stderr (tr : list event) : list diag :=
  omap (λ ev, match ev with EvStderr d => Some d | _ => None end) tr.

Definition tag_queries (tr : list event) : list string :=
  omap (λ ev, match ev with EvQuery (QTagsOf h) => Some h | _ => None end) tr.

Definition text_queries (tr : list event) : list string :=
  omap (λ ev, match ev with EvQuery (QTagText k) => Some k | _ => None end) tr.

(** The key has a row in [tag_names]. *)
Definition named (db : Db) (core_hash : string) : Prop :=
  select_tag_text db core_hash ≠ [].

(** ** The scenarios of the report's description *)

Module Scenario.
Local Open Scope string_scope.

Definition db : Db :=
  {| files := [("A", "/a"); ("B", "/b")];
     tag_files := [("A", "T1"); ("B", "T1"); ("A", "T2")];
     hashes := ["A"; "B"; "T1"; "T2"];
     tag_names := [("T1", "one"); ("T2", "two")] |}.

Definition disk (p : string) : option N :=
  if decide (p = "/a") then Some 100%N
  else if decide (p = "/b") then Some 200%N else None.

Definition world (args : list string) (env : gmap string string) : World :=
  {| argv := "find_largest_tags.py" :: args; environ := env;
     store := Some db; fs := disk; builtin_int := Py.int_ascii |}.

(** The same store after [/b] has been deleted from the disk. *)
Definition world_without_b (args : list string) : World :=
  {| argv := "find_largest_tags.py" :: args; environ := ∅; store := Some db;
     fs := λ p, if decide (p = "/a") then Some 100%N else None;
     builtin_int := Py.int_ascii |}.

Definition floor_env (v : string) : gmap string string :=
  {[ "SORT_BY_COUNT_WITH_MIN_GB" := v ]}.

(** Two tags on the same single path, so that they tie on both keys; [T2]
    is met first. *)
Definition tie_db : Db :=
  {| files := [("A", "/a"); ("B", "/a")];
     tag_files := [("A", "T2"); ("B", "T1"); ("A", "T1")];
     hashes := ["T1"; "T2"];
     tag_names := [("T1", "one"); ("T2", "two")] |}.

Definition tie_world (env : gmap string string) : World :=
  {| argv := ["find_largest_tags.py"]; environ := env; store := Some tie_db;
     fs := λ _, Some 7%N; builtin_int := Py.int_ascii |}.

(** The store of [db] where [T2] has lost its row in [tag_names], and a
    second name has been given to [T1]. *)
Definition nameless_db : Db :=
  {| files := files db; tag_files := tag_files db; hashes := hashes db;
     tag_names := [("T1", "one"); ("T1", "uno")] |}.

Definition nameless_world (args : list string) : World :=
  {| argv := "find_largest_tags.py" :: args; environ := ∅;
     store := Some nameless_db; fs := disk; builtin_int := Py.int_ascii |}.

(** The store file cannot be opened. *)
Definition no_store_world (args : list string) : World :=
  {| argv := "find_largest_tags.py" :: args; environ := ∅; store := None;
     fs := disk; builtin_int := Py.int_ascii |}.

(** The size cache and the aggregation record of [db] after the fetch
    loop. *)
Definition sizes : gmap string Z := {[ "/a" := 100; "/b" := 200 ]}.

Definition record : list (string * gset string) :=
  [("T1", {[ "/a"; "/b" ]}); ("T2", {[ "/a" ]})].

(** One file hash under two paths, a file without a tag, and a row of
    [tag_files] whose tag is not in [hashes]. *)
Definition copies_db : Db :=
  {| files := [("A", "/a"); ("A", "/b"); ("C", "/c")];
     tag_files := [("A", "T1"); ("C", "T9")];
     hashes := ["A"; "C"; "T1"];
     tag_names := [("T1", "one")] |}.

Definition copies_world (args : list string) : World :=
  {| argv := "find_largest_tags.py" :: args; environ := ∅;
     store := Some copies_db; fs := λ _, Some 5%N;
     builtin_int := Py.int_ascii |}.
End Scenario.


(** ** Facts about the built-ins *)

Module PyFacts.

Section sorted.
Context {A : Type} (key : A → Z) (reverse : bool).

#[local] Abbreviation insert := (Py.insert key reverse).
#[local] Abbreviation sorted := (Py.sorted key reverse).
#[local] Abbreviation in_order := (Py.in_order key reverse).

Lemma key_le_spec x y : Py.key_le key reverse x y = true ↔ in_order x y.
Proof.
  unfold Py.key_le, Py.in_order. destruct reverse; apply Z.leb_le.
Qed.

Lemma key_le_false x y : Py.key_le key reverse x y = false → in_order y x.
Proof.
  unfold Py.key_le, Py.in_order. destruct reverse; rewrite Z.leb_gt; lia.
Qed.

Lemma key_le_false_ne x y : Py.key_le key reverse x y = false → key x ≠ key y.
Proof.
  unfold Py.key_le. destruct reverse; rewrite Z.leb_gt; lia.
Qed.

#[local] Instance in_order_trans : Transitive in_order.
Proof. unfold Py.in_order. intros x y z. destruct reverse; lia. Qed.

Lemma in_order_antisym x y : in_order x y → in_order y x → key x = key y.
Proof. unfold Py.in_order. destruct reverse; lia. Qed.

Lemma insert_perm x l : insert x l ≡ₚ x :: l.
Proof.
  induction l as [|y l IH]; simpl; [done|].
  destruct (Py.key_le key reverse x y); [done|].
  rewrite IH. apply Permutation_swap.
Qed.

Lemma sorted_perm l : sorted l ≡ₚ l.
Proof.
  induction l as [|x l IH]; simpl; [done|].
  rewrite insert_perm. by f_equiv.
Qed.

Lemma insert_sorted x l :
  StronglySorted in_order l → StronglySorted in_order (insert x l).
Proof.
  induction 1 as [|y l Hl IH Hy]; simpl.
  - repeat constructor.
  - destruct (Py.key_le key reverse x y) eqn:Hxy.
    + apply key_le_spec in Hxy. constructor.
      * by constructor.
      * constructor; [done|].
        eapply Forall_impl; [exact Hy|]. intros z Hz. by etrans.
    + apply key_le_false in Hxy. constructor; [done|].
      rewrite insert_perm. by constructor.
Qed.

Lemma sorted_sorted l : StronglySorted in_order (sorted l).
Proof.
  induction l as [|x l IH]; simpl; [constructor|]. by apply insert_sorted.
Qed.

(** Stability: the elements of any one key keep their order. *)
Lemma insert_stable k x l :
  filter (λ y, key y = k) (insert x l) = filter (λ y, key y = k) (x :: l).
Proof.
  induction l as [|y l IH]; simpl; [done|].
  destruct (Py.key_le key reverse x y) eqn:Hxy; [done|].
  apply key_le_false_ne in Hxy.
  rewrite (filter_cons _ y), IH, !filter_cons.
  repeat case_decide; congruence.
Qed.

Lemma sorted_stable k l :
  filter (λ y, key y = k) (sorted l) = filter (λ y, key y = k) l.
Proof.
  induction l as [|x l IH]; simpl; [done|].
  by rewrite insert_stable, !filter_cons, IH.
Qed.

(** A list in key order is determined by its elements of each key. *)
Lemma sorted_stable_eq l1 l2 :
  StronglySorted in_order l1 → StronglySorted in_order l2 →
  (∀ k, filter (λ y, key y = k) l1 = filter (λ y, key y = k) l2) →
  l1 = l2.
Proof.
  intros Hl1. revert l2.
  induction Hl1 as [|x l1 Hl1 IH Hx]; intros l2 Hl2 Heq.
  - destruct l2 as [|y l2]; [done|].
    specialize (Heq (key y)). by rewrite filter_cons_True in Heq.
  - destruct Hl2 as [|y l2 Hl2 Hy].
    { specialize (Heq (key x)). by rewrite filter_cons_True in Heq. }
    assert (key x = key y) as Hk.
    { apply in_order_antisym.
      - assert (y ∈ x :: l1) as Hin.
        { eapply (list_elem_of_filter (λ z, key z = key y)).
          rewrite Heq, filter_cons_True by done. left. }
        apply elem_of_cons in Hin as [->|Hin]; [|by eapply Forall_forall].
        unfold Py.in_order. destruct reverse; lia.
      - assert (x ∈ y :: l2) as Hin.
        { eapply (list_elem_of_filter (λ z, key z = key x)).
          rewrite <-Heq, filter_cons_True by done. left. }
        apply elem_of_cons in Hin as [->|Hin]; [|by eapply Forall_forall].
        unfold Py.in_order. destruct reverse; lia. }
    assert (x = y) as ->.
    { specialize (Heq (key x)).
      rewrite !filter_cons_True in Heq by done. congruence. }
    f_equal. apply IH; [done|]. intros k. specialize (Heq k).
    rewrite !filter_cons in Heq. case_decide; congruence.
Qed.

(** Whatever algorithm the built-in runs, a stable sort returns this. *)
Lemma sorted_unique l l' :
  StronglySorted in_order l' →
  (∀ k, filter (λ y, key y = k) l' = filter (λ y, key y = k) l) →
  l' = sorted l.
Proof.
  intros Hs Hst. apply sorted_stable_eq; [done|apply sorted_sorted|].
  intros k. by rewrite Hst, sorted_stable.
Qed.
End sorted.

Section dict.
Context {K V : Type} `{EqDecision K}.
Implicit Types (d : list (K * V)) (k : K) (v : V).

Lemma get_None d k : Py.get d k = None ↔ k ∉ Py.keys d.
Proof.
  unfold Py.keys. induction d as [|[k' v'] d IH]; simpl.
  - split; [intros _; apply not_elem_of_nil|done].
  - rewrite not_elem_of_cons. case_decide; [|rewrite IH]; intuition congruence.
Qed.

Lemma get_set d k v k' :
  Py.get (Py.set d k v) k' = if decide (k' = k) then Some v else Py.get d k'.
Proof.
  induction d as [|[k1 v1] d IH]; simpl.
  - repeat case_decide; congruence.
  - destruct (decide (k = k1)) as [->|]; simpl; [|rewrite IH];
      repeat case_decide; congruence.
Qed.

Lemma keys_set d k v :
  Py.keys (Py.set d k v) =
  if decide (k ∈ Py.keys d) then Py.keys d else Py.keys d ++ [k].
Proof.
  induction d as [|[k1 v1] d IH]; [done|].
  change (Py.keys ((k1, v1) :: d)) with (k1 :: Py.keys d).
  change (Py.set ((k1, v1) :: d) k v)
    with (if decide (k = k1) then (k, v) :: d else (k1, v1) :: Py.set d k v).
  destruct (decide (k = k1)) as [->|Hne].
  - rewrite decide_True; [done|left].
  - change (Py.keys ((k1, v1) :: Py.set d k v))
      with (k1 :: Py.keys (Py.set d k v)).
    rewrite IH. destruct (decide (k ∈ Py.keys d)) as [Hin|Hin].
    + rewrite decide_True; [done|by right].
    + rewrite decide_False; [done|]. by rewrite not_elem_of_cons.
Qed.

Lemma set_set d k v v' : Py.set (Py.set d k v) k v' = Py.set d k v'.
Proof.
  induction d as [|[k1 v1] d IH]; simpl.
  - by rewrite decide_True.
  - destruct (decide (k = k1)) as [->|Hne]; simpl.
    + by rewrite decide_True.
    + rewrite decide_False by done. by rewrite IH.
Qed.

End dict.

Lemma slice_to_nonneg {A} (l : list A) n :
  0 ≤ n → Py.slice_to l n = take (Z.to_nat n) l.
Proof. intros Hn. unfold Py.slice_to. by rewrite (proj2 (Z.leb_le 0 n)). Qed.

Lemma slice_to_neg {A} (l : list A) n :
  n < 0 → Py.slice_to l n = take (length l - Z.to_nat (- n)) l.
Proof. intros Hn. unfold Py.slice_to. by rewrite (proj2 (Z.leb_gt 0 n)). Qed.

Lemma slice_to_prefix {A} (l : list A) n : Py.slice_to l n `prefix_of` l.
Proof. unfold Py.slice_to. case_match; apply prefix_take. Qed.

Lemma truthy_spec v : Py.truthy v = true ↔ ∃ s, v = Some s ∧ s ≠ EmptyString.
Proof.
  destruct v as [[|a s]|]; simpl; split; try done.
  - intros (s & [= <-] & Hs). done.
  - intros _. by eexists.
  - intros (s & [=] & _).
Qed.

End PyFacts.

(** ** First occurrences *)

Section nub.
Context {A : Type} `{EqDecision A}.
Implicit Types (l : list A) (x y : A).

Lemma elem_of_nub l x : x ∈ nub l ↔ x ∈ l.
Proof.
  induction l as [|a l IH]; simpl; [done|].
  rewrite !elem_of_cons, list_elem_of_filter, IH.
  destruct (decide (x = a)); intuition.
Qed.

Lemma NoDup_nub l : NoDup (nub l).
Proof.
  induction l as [|a l IH]; simpl; constructor.
  - rewrite list_elem_of_filter. intuition.
  - by apply NoDup_filter.
Qed.

Lemma filter_all (P : A → Prop) `{∀ x, Decision (P x)} l :
  (∀ x, x ∈ l → P x) → filter P l = l.
Proof.
  induction l as [|a l IH]; intros Hl; [done|].
  rewrite filter_cons_True by (apply Hl; left).
  f_equal. apply IH. intros x Hx. apply Hl. by right.
Qed.

Lemma filter_none (P : A → Prop) `{∀ x, Decision (P x)} l :
  (∀ x, x ∈ l → ¬ P x) → filter P l = [].
Proof.
  induction l as [|a l IH]; intros Hl; [done|].
  rewrite filter_cons_False by (apply Hl; left).
  apply IH. intros x Hx. apply Hl. by right.
Qed.

Lemma sublist_filter_mono (P : A → Prop) `{∀ x, Decision (P x)} l1 l2 :
  l1 `sublist_of` l2 → filter P l1 `sublist_of` filter P l2.
Proof.
  induction 1 as [|x l1 l2 _ IH|x l1 l2 _ IH]; [done| |];
    rewrite ?filter_cons; case_decide;
    auto using sublist_skip, sublist_cons.
Qed.

Lemma before_elem_of l x y : before l x y → x ∈ l ∧ y ∈ l.
Proof.
  intros Hs%sublist_subseteq.
  split; apply Hs; rewrite !elem_of_cons; auto.
Qed.

(** The order of the first occurrences is the order of first meeting. *)
Lemma before_nub l x y : before (nub l) x y ↔ first_seen_before l x y.
Proof.
  unfold before, first_seen_before. split.
  - induction l as [|a l IH]; simpl; intros Hs.
    { by apply sublist_nil_r in Hs. }
    apply sublist_cons_r in Hs as [Hs|(l' & [= <- <-] & Hs)].
    + assert (sublist [x; y] (nub l)) as Hs'.
      { etrans; [exact Hs|apply sublist_filter]. }
      apply before_elem_of in Hs as [Hxa Hya].
      apply list_elem_of_filter in Hxa as [? _], Hya as [? _].
      destruct (IH Hs') as (l1 & l2 & -> & ? & ? & ? & ?).
      exists (a :: l1), l2. rewrite !not_elem_of_cons. done.
    + apply sublist_subseteq in Hs.
      assert (y ∈ filter (λ z, z ≠ x) (nub l)) as Hy by (apply Hs; left).
      apply list_elem_of_filter in Hy as [? Hy]. rewrite elem_of_nub in Hy.
      exists [], l. split_and!; try done; apply not_elem_of_nil.
  - intros (l1 & l2 & -> & Hx & Hy & Hne & Hin).
    induction l1 as [|a l1 IH]; simpl.
    + apply sublist_skip, sublist_cons_l.
      assert (y ∈ filter (λ z, z ≠ x) (nub l2)) as Hin'.
      { apply list_elem_of_filter. by rewrite elem_of_nub. }
      apply list_elem_of_split in Hin' as (k1 & k2 & ->).
      exists k1, k2. split; [done|apply sublist_nil_l].
    + apply not_elem_of_cons in Hx as [??], Hy as [??].
      apply sublist_cons.
      replace [x; y] with (filter (λ z, z ≠ a) [x; y]).
      * apply sublist_filter_mono. by apply IH.
      * by rewrite !filter_cons_True, filter_nil.
Qed.
End nub.

(** ** The aggregation record *)

Section tagmap.
Implicit Types (tagmap : list (string * gset string)) (t p : string).

Lemma paths_of_add tagmap t p t' :
  paths_of (tagmap_add tagmap t p) t' =
  if decide (t' = t) then paths_of tagmap t ∪ {[p]} else paths_of tagmap t'.
Proof.
  unfold paths_of, tagmap_add.
  destruct (Py.get tagmap t) as [s|] eqn:Hg; rewrite PyFacts.get_set;
    case_decide; subst; rewrite ?Hg; simpl; try done.
  by rewrite (left_id_L ∅ (∪)).
Qed.

Lemma keys_add tagmap t p :
  Py.keys (tagmap_add tagmap t p) =
  if decide (t ∈ Py.keys tagmap) then Py.keys tagmap else Py.keys tagmap ++ [t].
Proof.
  unfold tagmap_add. destruct (Py.get tagmap t); apply PyFacts.keys_set.
Qed.

(** Adding a path a second time under the same tag changes nothing. *)
Lemma tagmap_add_idemp tagmap t p :
  tagmap_add (tagmap_add tagmap t p) t p = tagmap_add tagmap t p.
Proof.
  unfold tagmap_add at 1.
  assert (Py.get (tagmap_add tagmap t p) t = Some (paths_of tagmap t ∪ {[p]})) as ->.
  { unfold tagmap_add, paths_of.
    destruct (Py.get tagmap t); rewrite PyFacts.get_set, decide_True by done;
      simpl; [done|]. by rewrite (left_id_L ∅ (∪)). }
  unfold tagmap_add, paths_of.
  destruct (Py.get tagmap t) as [s|]; simpl; rewrite PyFacts.set_set; f_equal.
  - by rewrite <-(assoc_L (∪)), (idemp_L (∪)).
  - by rewrite (left_id_L ∅ (∪)), (idemp_L (∪)).
Qed.

Lemma paths_of_add_all tagmap pairs t :
  paths_of (add_all tagmap pairs) t =
  paths_of tagmap t ∪ list_to_set (filter (λ e, e.1 = t) pairs).*2.
Proof.
  revert tagmap. induction pairs as [|[t' p] pairs IH]; intros tagmap; simpl.
  - by rewrite (right_id_L ∅ (∪)).
  - unfold add_all in *. simpl. rewrite IH, paths_of_add, filter_cons. simpl.
    destruct (decide (t = t')) as [->|Hne].
    + rewrite decide_True by done. simpl. by rewrite (assoc_L (∪)).
    + by rewrite decide_False by congruence.
Qed.

Lemma keys_add_all tagmap pairs :
  Py.keys (add_all tagmap pairs) =
  Py.keys tagmap ++ filter (λ t, t ∉ Py.keys tagmap) (nub pairs.*1).
Proof.
  revert tagmap. induction pairs as [|[t p] pairs IH]; intros tagmap.
  - simpl. by rewrite filter_nil, app_nil_r.
  - change (add_all tagmap ((t, p) :: pairs))
      with (add_all (tagmap_add tagmap t p) pairs).
    change (nub ((t, p) :: pairs).*1)
      with (t :: filter (λ y, y ≠ t) (nub pairs.*1)).
    rewrite IH, keys_add, filter_cons.
    case_decide as Hin.
    + rewrite decide_False by tauto. f_equal.
      rewrite list_filter_filter. apply list_filter_iff.
      intros x. split; [|tauto]. intros Hx. split; [done|congruence].
    + rewrite decide_True by done. rewrite <-(assoc_L (++)). simpl.
      do 2 f_equal. rewrite list_filter_filter. apply list_filter_iff.
      intros x. rewrite elem_of_app, list_elem_of_singleton. tauto.
Qed.

End tagmap.

(** ** Runs and their traces *)

Lemma bind_eq {A B} (m : Run A) (f : A → Run B) :
  m ≫= f = match m.2 with
           | inl e => (m.1, inl e)
           | inr a => (m.1 ++ (f a).1, (f a).2)
           end.
Proof. destruct m as [tr [e|a]]; simpl; [done|]. by destruct (f a). Qed.

Lemma bind_inl {A B} (m : Run A) (f : A → Run B) tr e :
  m = (tr, inl e) → m ≫= f = (tr, inl e).
Proof. by intros ->. Qed.

Lemma bind_inr {A B} (m : Run A) (f : A → Run B) tr a :
  m = (tr, inr a) → m ≫= f = (tr ++ (f a).1, (f a).2).
Proof. intros ->. simpl. by destruct (f a). Qed.

Lemma bind_emit {B} ev (f : unit → Run B) :
  emit ev ≫= f = (ev :: (f tt).1, (f tt).2).
Proof. by rewrite (bind_inr _ _ [ev] tt). Qed.

Lemma bind_ret {A B} (a : A) (f : A → Run B) : mret a ≫= f = f a.
Proof. rewrite (bind_inr _ _ [] a) by done. by destruct (f a). Qed.

Lemma stdout_app tr1 tr2 : stdout (tr1 ++ tr2) = stdout tr1 ++ stdout tr2.
Proof. apply omap_app. Qed.

Lemma stats_app tr1 tr2 : stats (tr1 ++ tr2) = stats tr1 ++ stats tr2.
Proof. apply omap_app. Qed.

Lemma emitted_app tr1 tr2 : emitted (tr1 ++ tr2) = emitted tr1 ++ emitted tr2.
Proof. unfold emitted. by rewrite stdout_app, fmap_app. Qed.

(** ** The fetch loop *)

Section fetch.
Context (w : World) (db : Db).
Implicit Types (stat_map : gmap string Z) (tagmap : list (string * gset string)).

Lemma fetch_row_eq stat_map tagmap row :
  fetch_row w db (stat_map, tagmap) row =
  let tagmap' := add_all tagmap (row_encounters db row) in
  match stat_map !! row.2 with
  | Some _ => ([EvQuery (QTagsOf row.1)], inr (stat_map, tagmap'))
  | None =>
      match fs w row.2 with
      | Some n => ([EvStat row.2; EvQuery (QTagsOf row.1)],
                   inr (<[row.2 := Z.of_N n]> stat_map, tagmap'))
      | None => ([EvStat row.2], inl (OSError row.2))
      end
  end.
Proof.
  destruct row as [file_hash local_path]. unfold fetch_row, stat. simpl.
  unfold add_all, row_encounters. rewrite foldl_fmap. simpl.
  destruct (stat_map !! local_path); simpl; [done|].
  destruct (fs w local_path); simpl; done.
Qed.

Lemma for_each_fetch_row rows : ∀ stat_map tagmap,
  ∃ tr r, for_each (fetch_row w db) (stat_map, tagmap) rows = (tr, r) ∧
    stdout tr = [] ∧ NoDup (stats tr) ∧
    (∀ p, p ∈ stats tr → stat_map !! p = None ∧ p ∈ rows.*2) ∧
    match r with
    | inr (stat_map', tagmap') =>
        tagmap' = add_all tagmap (rows ≫= row_encounters db) ∧
        stat_map ⊆ stat_map' ∧
        (∀ p, stat_map' !! p =
              match stat_map !! p with
              | Some v => Some v
              | None => if decide (p ∈ rows.*2) then Z.of_N <$> fs w p else None
              end) ∧
        (∀ p, p ∈ rows.*2 → stat_map !! p = None →
              p ∈ stats tr ∧ is_Some (fs w p))
    | inl e => ∃ p, e = OSError p ∧ p ∈ rows.*2 ∧
                    stat_map !! p = None ∧ fs w p = None
    end.
Proof.
  induction rows as [|row rows IH]; intros stat_map tagmap.
  { exists [], (inr (stat_map, tagmap)). split_and!; try done.
    - constructor.
    - intros p Hp. by apply elem_of_nil in Hp.
    - intros p. destruct (stat_map !! p); [done|].
      rewrite decide_False; [done|apply not_elem_of_nil].
    - intros p Hp. by apply elem_of_nil in Hp. }
  change (for_each (fetch_row w db) (stat_map, tagmap) (row :: rows))
    with (fetch_row w db (stat_map, tagmap) row ≫= λ s', for_each (fetch_row w db) s' rows).
  rewrite bind_eq, fetch_row_eq. cbv zeta.
  rewrite fmap_cons, bind_cons.
  destruct (stat_map !! row.2) as [v|] eqn:Hrow; simpl.
  - destruct (IH stat_map (add_all tagmap (row_encounters db row)))
      as (tr & r & -> & Hout & Hnd & Hst & Hr).
    eexists _, _. split; [done|]. simpl. split_and!; try done.
    + intros p Hp. destruct (Hst p Hp). split; [done|by right].
    + destruct r as [e|[stat_map' tagmap']].
      * destruct Hr as (p & -> & ? & ? & ?). exists p. split_and!; try done. by right.
      * destruct Hr as (-> & Hsub & Hlk & Hin). split_and!; try done.
        -- unfold add_all. by rewrite foldl_app.
        -- intros p. rewrite Hlk. destruct (stat_map !! p) eqn:Hp; [done|].
           apply decide_ext. rewrite elem_of_cons.
           split; [by right|]. intros [->|?]; [congruence|done].
        -- intros p [->|Hp]%elem_of_cons Hnone; [congruence|]. by apply Hin.
  - destruct (fs w row.2) as [n|] eqn:Hfs; simpl.
    + destruct (IH (<[row.2 := Z.of_N n]> stat_map)
                   (add_all tagmap (row_encounters db row)))
        as (tr & r & -> & Hout & Hnd & Hst & Hr).
      eexists _, _. split; [done|]. simpl. split_and!; try done.
      * constructor; [|done]. intros Hp. apply Hst in Hp as [Hp _].
        by rewrite lookup_insert_eq in Hp.
      * intros p [->|Hp]%elem_of_cons; [split; [done|left]|].
        destruct (Hst p Hp) as [Hlk ?]. split; [|by right].
        apply lookup_insert_None in Hlk. tauto.
      * destruct r as [e|[stat_map' tagmap']].
        -- destruct Hr as (p & -> & ? & Hlk & ?). exists p.
           apply lookup_insert_None in Hlk as [??]. split_and!; try done. by right.
        -- destruct Hr as (-> & Hsub & Hlk & Hin). split_and!.
           ++ unfold add_all. by rewrite foldl_app.
           ++ etrans; [|exact Hsub]. by apply insert_subseteq.
           ++ intros p. rewrite Hlk. destruct (decide (p = row.2)) as [->|Hne].
              ** rewrite lookup_insert_eq, Hrow, decide_True by left.
                 by rewrite Hfs.
              ** rewrite lookup_insert_ne by done.
                 destruct (stat_map !! p); [done|]. apply decide_ext.
                 rewrite elem_of_cons. tauto.
           ++ intros p [->|Hp]%elem_of_cons Hnone.
              ** split; [left|by rewrite Hfs].
              ** destruct (decide (p = row.2)) as [->|Hne].
                 { split; [left|by rewrite Hfs]. }
                 destruct (Hin p Hp) as [??]; [by rewrite lookup_insert_ne|].
                 split; [by right|done].
    + eexists _, _. split; [done|]. simpl. split_and!; try done.
      * apply NoDup_singleton.
      * intros p ->%list_elem_of_singleton. split; [done|left].
      * exists row.2. split_and!; try done. left.
Qed.
End fetch.

(** ** The ranking *)

Section rank.
Context (w : World) (stat_map : gmap string Z) (tagmap : list (string * gset string)).

#[local] Abbreviation total := (_sort_by_total_size stat_map tagmap).
#[local] Abbreviation count := (_sort_by_count tagmap).

Lemma filterM_floor (min_gb : string) (l : list string) :
  filterM (λ k, let total := total k in
                n ← int w min_gb; mret (n * 1024 * 1024 * 1024 <=? total)) l =
  match l with
  | [] => ([], inr [])
  | _ :: _ =>
      match builtin_int w min_gb with
      | Some n => ([], inr (filter (λ k, n * 1024 * 1024 * 1024 ≤ total k) l))
      | None => ([], inl (ValueError min_gb))
      end
  end.
Proof.
  destruct l as [|k0 l]; [done|].
  unfold int. destruct (builtin_int w min_gb) as [n|]; [|done].
  generalize (k0 :: l). clear. intros l.
  induction l as [|k l IH]; [done|].
  cbn [filterM]. rewrite !bind_eq. cbn [fst snd mret run_ret raise].
  rewrite !bind_eq, IH. cbn [fst snd mret run_ret app]. rewrite filter_cons.
  destruct (Z.leb_spec (n * 1024 * 1024 * 1024) (total k)).
  - by rewrite decide_True.
  - by rewrite decide_False by lia.
Qed.

Lemma rank_default v :
  Py.truthy v = false →
  rank w stat_map tagmap v = ([], inr (Py.sorted total true (Py.keys tagmap))).
Proof. unfold rank. destruct v as [[|??]|]; simpl; done. Qed.

Lemma rank_floor min_gb :
  min_gb ≠ EmptyString →
  rank w stat_map tagmap (Some min_gb) =
  match Py.keys tagmap with
  | [] => ([], inr [])
  | _ :: _ =>
      match builtin_int w min_gb with
      | Some n =>
          ([], inr (Py.sorted count false
                      (filter (λ k, n * 1024 * 1024 * 1024 ≤ total k)
                              (Py.keys tagmap))))
      | None => ([], inl (ValueError min_gb))
      end
  end.
Proof.
  intros Hne. unfold rank.
  assert (Py.truthy (Some min_gb) = true) as -> by by destruct min_gb.
  rewrite filterM_floor, bind_eq.
  destruct (Py.keys tagmap); [done|].
  destruct (builtin_int w min_gb); done.
Qed.

Lemma rank_trace v : (rank w stat_map tagmap v).1 = [].
Proof.
  destruct (Py.truthy v) eqn:Hv.
  - apply PyFacts.truthy_spec in Hv as (s & -> & Hs). rewrite rank_floor by done.
    destruct (Py.keys tagmap); [done|]. by destruct (builtin_int w s).
  - by rewrite rank_default.
Qed.

(** The ranked keys are keys of [tagmap]: [tagmap[core_hash]] does not
    fail on them. *)
Lemma paths_of_key v tr keys k :
  rank w stat_map tagmap v = (tr, inr keys) → k ∈ keys →
  k ∈ Py.keys tagmap ∧ Py.get tagmap k = Some (paths_of tagmap k).
Proof.
  intros Hrk Hk.
  assert (k ∈ Py.keys tagmap) as Hin.
  { destruct (Py.truthy v) eqn:Hv.
    - apply PyFacts.truthy_spec in Hv as (s & -> & Hs).
      rewrite rank_floor in Hrk by done.
      destruct (Py.keys tagmap) as [|k0 ks]; [by simplify_eq|].
      destruct (builtin_int w s) as [n|]; [|done]. simplify_eq.
      rewrite PyFacts.sorted_perm in Hk. by apply list_elem_of_filter in Hk as [_ ?].
    - rewrite rank_default in Hrk by done. simplify_eq.
      by rewrite PyFacts.sorted_perm in Hk. }
  split; [done|]. unfold paths_of.
  destruct (Py.get tagmap k) eqn:Hg; [done|].
  by apply PyFacts.get_None in Hg.
Qed.

Lemma report_row_eq db u k :
  report_row stat_map tagmap db u k =
  match select_tag_text db k with
  | [] => ([EvQuery (QTagText k)], inl (TypeError k))
  | tag_text :: _ =>
      ([EvQuery (QTagText k);
        EvStdout {| rl_core_hash := k; rl_tag_text := tag_text;
                    rl_used_bytes := total k;
                    rl_count := size (paths_of tagmap k) |}], inr tt)
  end.
Proof. unfold report_row. by destruct (select_tag_text db k). Qed.

(** The report loop writes one line per key, in order, and stops at the
    first key without a display text. *)
Lemma report_spec db keys :
  ∃ tr r, report stat_map tagmap db keys = (tr, r) ∧
    stats tr = [] ∧
    Forall (λ l, rl_used_bytes l = total (rl_core_hash l) ∧
                 rl_count l = size (paths_of tagmap (rl_core_hash l))) (stdout tr) ∧
    match r with
    | inr _ => emitted tr = keys
    | inl e => ∃ k, e = TypeError k ∧ k ∈ keys ∧
                    select_tag_text db k = [] ∧
                    emitted tr `prefix_of` keys ∧ emitted tr ≠ keys
    end.
Proof.
  unfold report. generalize tt.
  induction keys as [|k keys IH]; intros u.
  { exists [], (inr u). split_and!; done. }
  cbn [for_each]. rewrite bind_eq, report_row_eq.
  destruct (select_tag_text db k) as [|tag_text rows] eqn:Hsel; cbn [fst snd].
  - eexists _, _. split; [done|]. split_and!; try done.
    exists k. split_and!; try done; [left|apply prefix_nil].
  - destruct (IH tt) as (tr & r & -> & Hst & Hl & Hr). cbn [fst snd].
    eexists _, _. split; [done|]. split_and!.
    + done.
    + cbn. constructor; [done|]. exact Hl.
    + destruct r as [e|?].
      * destruct Hr as (k' & -> & ? & ? & ? & ?). exists k'.
        rewrite emitted_app. change (emitted [_; _]) with [k].
        split_and!; try done; [by right|by apply prefix_cons|].
        cbn. congruence.
      * rewrite emitted_app. change (emitted [_; _]) with [k]. cbn. by f_equal.
Qed.
End rank.

(** ** The run, phase by phase *)

Section run.
Context (w : World).

Lemma parse_limit_eq :
  parse_limit w =
  match argv w !! 1%nat with
  | Some a => match builtin_int w a with
              | Some n => ([], inr n)
              | None => ([], inl (ValueError a))
              end
  | None => ([], inr 50)
  end.
Proof.
  unfold parse_limit, int. destruct (argv w !! 1%nat) as [a|]; [|done].
  by destruct (builtin_int w a).
Qed.

Lemma parse_limit_trace : (parse_limit w).1 = [].
Proof.
  rewrite parse_limit_eq. destruct (argv w !! 1%nat) as [a|]; [|done].
  by destruct (builtin_int w a).
Qed.

Lemma ranking_eq :
  ranking w =
  match (parse_limit w).2 with
  | inl e => ([], inl e)
  | inr limit =>
      match store w with
      | None => ([EvStderr (DiagLimit limit)], inl OperationalError)
      | Some db =>
          match for_each (fetch_row w db) (∅, []) (files db) with
          | (trf, inl e) =>
              (EvStderr (DiagLimit limit) :: EvQuery QFiles :: trf, inl e)
          | (trf, inr (stat_map, tagmap)) =>
              (EvStderr (DiagLimit limit) :: EvQuery QFiles :: trf
                 ++ [EvStderr DiagFetched],
               match (rank w stat_map tagmap (floor_flag w)).2 with
               | inl e => inl e
               | inr keys => inr (limit, db, stat_map, tagmap, keys)
               end)
          end
      end
  end.
Proof.
  unfold ranking. pose proof parse_limit_trace as Htr.
  destruct (parse_limit w) as [tr [e|limit]]; simpl in Htr; subst tr; [done|].
  rewrite (bind_inr _ _ [] limit) by done. rewrite bind_emit.
  cbn [fst snd app]. unfold connect.
  destruct (store w) as [db|]; [|done]. rewrite bind_ret.
  unfold fetch. rewrite bind_emit. cbn [fst snd].
  destruct (for_each (fetch_row w db) (∅, []) (files db))
    as [trf [e|[stat_map tagmap]]]; [done|]. cbn [fst snd].
  rewrite (bind_inr _ _ (EvQuery QFiles :: trf) (stat_map, tagmap)) by done.
  rewrite bind_emit. cbn [fst snd]. pose proof (rank_trace w stat_map tagmap (floor_flag w)) as Hr.
  destruct (rank w stat_map tagmap (floor_flag w)) as [trr [e|keys]];
    simpl in Hr; subst trr; [done|].
  rewrite (bind_inr _ _ [] keys) by done. done.
Qed.

Lemma main_eq :
  main w =
  match ranking w with
  | (tr, inl e) => (tr, inl e)
  | (tr, inr (limit, db, stat_map, tagmap, keys)) =>
      match report stat_map tagmap db (Py.slice_to keys limit) with
      | (trr, inl e) => (tr ++ trr, inl e)
      | (trr, inr _) => (tr ++ trr ++ [EvStderr DiagSorted], inr tt)
      end
  end.
Proof.
  unfold main. rewrite bind_eq.
  destruct (ranking w) as [tr [e|[[[[limit db] stat_map] tagmap] keys]]]; [done|].
  cbn [fst snd]. rewrite bind_eq.
  by destruct (report stat_map tagmap db (Py.slice_to keys limit)) as [trr [e|[]]].
Qed.
End run.

(** ** The locals after the fetch loop, against the description *)

Section locals.
Context (w : World) (db : Db).

Lemma elem_of_encounters t p :
  (t, p) ∈ encounters db ↔
  ∃ row, row ∈ files db ∧ row.2 = p ∧ t ∈ select_core_hash db row.1.
Proof.
  unfold encounters, row_encounters. rewrite list_elem_of_bind. split.
  - intros (row & Hin & Hrow). apply list_elem_of_fmap in Hin as (t' & [= -> ->] & Hin).
    by exists row.
  - intros (row & Hrow & <- & Hin). exists row. split; [|done].
    apply list_elem_of_fmap. by exists t.
Qed.

Lemma pathsOf_encounters t :
  list_to_set (filter (λ e, e.1 = t) (encounters db)).*2 = pathsOf db t.
Proof.
  unfold pathsOf. apply set_eq. intros p.
  rewrite !elem_of_list_to_set, !list_elem_of_fmap. split.
  - intros ([t' p'] & -> & [Ht Hin]%list_elem_of_filter). simpl in Ht. subst t'.
    apply elem_of_encounters in Hin as (row & ? & ? & ?).
    exists row. split; [done|]. by apply list_elem_of_filter.
  - intros (row & -> & [Ht Hin]%list_elem_of_filter).
    exists (t, row.2). split; [done|]. apply list_elem_of_filter. split; [done|].
    apply elem_of_encounters. by exists row.
Qed.

Lemma elem_of_tags t : t ∈ tags db ↔ pathsOf db t ≠ ∅.
Proof.
  unfold tags. rewrite elem_of_nub, list_elem_of_fmap. split.
  - intros ([t' p] & -> & Hin). simpl. rewrite <-pathsOf_encounters.
    intros Hempty. apply (not_elem_of_empty (C:=gset string) p).
    rewrite <-Hempty, elem_of_list_to_set, list_elem_of_fmap.
    exists (t', p). split; [done|]. by apply list_elem_of_filter.
  - intros Hne. apply set_choose_L in Hne as [p Hp].
    rewrite <-pathsOf_encounters, elem_of_list_to_set, list_elem_of_fmap in Hp.
    destruct Hp as ([t' p'] & -> & [Ht Hin]%list_elem_of_filter). simpl in Ht.
    subst t'. by exists (t, p').
Qed.

Lemma elem_of_pathsOf t p : p ∈ pathsOf db t → p ∈ (files db).*2.
Proof.
  unfold pathsOf. rewrite elem_of_list_to_set, !list_elem_of_fmap.
  intros (row & -> & [_ Hin]%list_elem_of_filter). by exists row.
Qed.

Lemma fetch_locals trf stat_map tagmap :
  for_each (fetch_row w db) (∅, []) (files db) = (trf, inr (stat_map, tagmap)) →
  tagmap = add_all [] (encounters db) ∧
  Py.keys tagmap = tags db ∧
  stdout trf = [] ∧ NoDup (stats trf) ∧
  (∀ p, p ∈ stats trf ↔ p ∈ (files db).*2) ∧
  (∀ p, p ∈ (files db).*2 → is_Some (fs w p) ∧ stat_map !! p = Some (sizeOf w p)) ∧
  (∀ p, p ∉ (files db).*2 → stat_map !! p = None) ∧
  (∀ t, paths_of tagmap t = pathsOf db t) ∧
  (∀ t, _sort_by_total_size stat_map tagmap t = totalSize w db t) ∧
  (∀ t, _sort_by_count tagmap t = Z.of_nat (fileCount db t)).
Proof.
  intros Hrun.
  destruct (for_each_fetch_row w db (files db) ∅ [])
    as (tr & r & Heq & Hout & Hnd & Hst & Hr).
  rewrite Hrun in Heq. injection Heq as <- <-.
  destruct Hr as (-> & _ & Hlk & Hin).
  assert (∀ t, paths_of (add_all [] (encounters db)) t = pathsOf db t) as Hpaths.
  { intros t. rewrite paths_of_add_all, pathsOf_encounters.
    unfold paths_of. simpl. by rewrite (left_id_L ∅ (∪)). }
  assert (∀ p, p ∈ (files db).*2 →
               is_Some (fs w p) ∧ stat_map !! p = Some (sizeOf w p)) as Hsize.
  { intros p Hp. destruct (Hin p Hp) as [_ [n Hn]]; [apply lookup_empty|].
    split; [by exists n|]. rewrite Hlk, lookup_empty, decide_True by done.
    unfold sizeOf. by rewrite Hn. }
  split_and!; try done.
  - unfold tags, encounters. rewrite keys_add_all. simpl.
    apply filter_all. intros t _. apply not_elem_of_nil.
  - intros p. split; [by intros [_ ?]%Hst|].
    intros Hp. apply Hin; [done|apply lookup_empty].
  - intros p Hp. by rewrite Hlk, lookup_empty, decide_False.
  - intros t. unfold _sort_by_total_size, totalSize. rewrite Hpaths. f_equal.
    apply Forall_fmap_ext_1, Forall_forall. intros p Hp%elem_of_elements.
    apply lookup_total_correct, Hsize. by eapply elem_of_pathsOf.
  - intros t. unfold _sort_by_count, fileCount. by rewrite Hpaths.
Qed.

(** Every path of the aggregation record is in the cache: [stat_map[p]]
    does not fail in [_sort_by_total_size]. *)
Lemma fetch_stat_map_closed trf stat_map tagmap t p :
  for_each (fetch_row w db) (∅, []) (files db) = (trf, inr (stat_map, tagmap)) →
  p ∈ paths_of tagmap t → is_Some (stat_map !! p).
Proof.
  intros Hf Hp.
  apply fetch_locals in Hf as (_ & _ & _ & _ & _ & Hsize & _ & Hpaths & _).
  rewrite Hpaths in Hp. apply elem_of_pathsOf in Hp.
  destruct (Hsize p Hp) as [_ ->]. by eexists.
Qed.
End locals.

Lemma StronglySorted_lookup {A} (R : relation A) l i j x y :
  StronglySorted R l → (i < j)%nat → l !! i = Some x → l !! j = Some y → R x y.
Proof.
  intros Hl. revert i j. induction Hl as [|a l Hl IH Ha]; intros i j Hij Hi Hj.
  { by rewrite lookup_nil in Hi. }
  destruct j as [|j]; [lia|]. simpl in Hj. destruct i as [|i]; simpl in Hi.
  - injection Hi as ->. eapply Forall_forall; [exact Ha|].
    by eapply list_elem_of_lookup_2.
  - apply (IH i j); [lia|done..].
Qed.

Lemma sum_nonneg l : Forall (λ x, 0 ≤ x) l → 0 ≤ Py.sum l.
Proof. induction 1; simpl; lia. Qed.

Lemma totalSize_nonneg w db t : 0 ≤ totalSize w db t.
Proof.
  unfold totalSize. apply sum_nonneg, Forall_fmap, Forall_forall.
  intros p _. unfold sizeOf. simpl. lia.
Qed.

(** ** The whole run *)

Section whole_run.
Context (w : World).

Lemma ranking_inv tr limit db stat_map tagmap keys :
  ranking w = (tr, inr (limit, db, stat_map, tagmap, keys)) →
  parse_limit w = ([], inr limit) ∧ store w = Some db ∧
  rank w stat_map tagmap (floor_flag w) = ([], inr keys) ∧
  ∃ trf, for_each (fetch_row w db) (∅, []) (files db) = (trf, inr (stat_map, tagmap)) ∧
         tr = EvStderr (DiagLimit limit) :: EvQuery QFiles :: trf ++ [EvStderr DiagFetched].
Proof.
  rewrite ranking_eq. pose proof (parse_limit_trace w) as Htr.
  destruct (parse_limit w) as [tr0 [e|limit0]]; simpl in *; subst tr0; [done|].
  destruct (store w) as [db0|]; [|done].
  destruct (for_each (fetch_row w db0) (∅, []) (files db0))
    as [trf [e|[stat_map0 tagmap0]]] eqn:Hf; [done|].
  pose proof (rank_trace w stat_map0 tagmap0 (floor_flag w)) as Hr.
  destruct (rank w stat_map0 tagmap0 (floor_flag w)) as [trr [e|keys0]] eqn:Hrk;
    simpl in *; subst trr; [done|].
  intros ?. simplify_eq. split_and!; try done. by exists trf.
Qed.

(** No report line is written before the ranking is done, and no path is
    stat-ed twice. *)
Lemma ranking_trace : stdout (ranking w).1 = [] ∧ NoDup (stats (ranking w).1).
Proof.
  rewrite ranking_eq.
  destruct (parse_limit w).2 as [e|limit]; [split; [done|constructor]|].
  destruct (store w) as [db|]; [|split; [done|constructor]].
  destruct (for_each_fetch_row w db (files db) ∅ [])
    as (trf & r & -> & Hout & Hnd & _ & _).
  destruct r as [e|[stat_map tagmap]]; cbn [fst]; [done|].
  change (EvStderr (DiagLimit limit) :: EvQuery QFiles :: trf ++ [EvStderr DiagFetched])
    with ([EvStderr (DiagLimit limit); EvQuery QFiles] ++ trf ++ [EvStderr DiagFetched]).
  rewrite !stdout_app, !stats_app, Hout. cbn. by rewrite app_nil_r.
Qed.

Lemma main_ranking_failed e : (ranking w).2 = inl e → main w = ((ranking w).1, inl e).
Proof. rewrite main_eq. destruct (ranking w) as [tr r]. by intros [= ->]. Qed.

Lemma main_stats : stats (main w).1 = stats (ranking w).1.
Proof.
  rewrite main_eq.
  destruct (ranking w) as [tr [e|[[[[limit db] stat_map] tagmap] keys]]]; [done|].
  destruct (report_spec stat_map tagmap db (Py.slice_to keys limit))
    as (trr & rr & -> & Hst & _).
  destruct rr as [e|?]; cbn [fst]; rewrite !stats_app, Hst, ?app_nil_r; done.
Qed.

Lemma main_output tr limit db stat_map tagmap keys :
  ranking w = (tr, inr (limit, db, stat_map, tagmap, keys)) →
  emitted (main w).1 `prefix_of` Py.slice_to keys limit ∧
  ((main w).2 = inr tt ↔ emitted (main w).1 = Py.slice_to keys limit) ∧
  Forall (λ l, rl_used_bytes l = totalSize w db (rl_core_hash l) ∧
               rl_count l = fileCount db (rl_core_hash l)) (stdout (main w).1).
Proof.
  intros Hrank. pose proof ranking_trace as [Hout _].
  rewrite main_eq. rewrite Hrank in *. simpl in Hout.
  apply ranking_inv in Hrank as (_ & _ & _ & trf & Hf & _).
  apply fetch_locals in Hf as (_ & _ & _ & _ & _ & _ & _ & Hp & Htot & _).
  destruct (report_spec stat_map tagmap db (Py.slice_to keys limit))
    as (trr & rr & -> & _ & Hl & Hr).
  assert (Forall (λ l, rl_used_bytes l = totalSize w db (rl_core_hash l) ∧
                       rl_count l = fileCount db (rl_core_hash l)) (stdout trr)) as Hl'.
  { eapply Forall_impl; [exact Hl|]. intros l [-> ->].
    by rewrite Htot, Hp. }
  destruct rr as [e|[]]; cbn [fst snd].
  - destruct Hr as (k & _ & _ & _ & Hpre & Hne).
    rewrite emitted_app, stdout_app. unfold emitted at 1 3. rewrite Hout. simpl.
    split_and!; [done| |done]. split; [done|]. intros Heq. by destruct Hne.
  - rewrite !emitted_app, !stdout_app. unfold emitted at 1 4. rewrite Hout. cbn.
    rewrite !app_nil_r. rewrite Hr. done.
Qed.
End whole_run.

(** ** Ranking order *)

Section ranking_order.
Context (w : World).

(** C2. In default mode (the floor flag unset or empty) every aggregated
    tag is ranked, the ranking is in descending order of total size, and
    any two adjacent report lines carry total sizes in descending order. *)
Theorem default_mode_ranking tr limit db stat_map tagmap keys :
  ranking w = (tr, inr (limit, db, stat_map, tagmap, keys)) →
  Py.truthy (floor_flag w) = false →
  keys ≡ₚ tags db ∧
  (∀ i t t', keys !! i = Some t → keys !! S i = Some t' →
             totalSize w db t >= totalSize w db t') ∧
  emitted (main w).1 `prefix_of` keys ∧
  (∀ i l l', stdout (main w).1 !! i = Some l → stdout (main w).1 !! S i = Some l' →
             rl_used_bytes l = totalSize w db (rl_core_hash l) ∧
             rl_used_bytes l' = totalSize w db (rl_core_hash l') ∧
             rl_used_bytes l >= rl_used_bytes l').
Proof.
  intros Hrank Hflag.
  destruct (main_output w _ _ _ _ _ _ Hrank) as (Hpre & _ & Hlines).
  apply ranking_inv in Hrank as (_ & _ & Hrk & trf & Hf & _).
  apply fetch_locals in Hf as (_ & Hkeys & _ & _ & _ & _ & _ & _ & Htot & _).
  rewrite rank_default in Hrk by done. injection Hrk as <-.
  assert (∀ i t t', Py.sorted (_sort_by_total_size stat_map tagmap) true
                      (Py.keys tagmap) !! i = Some t →
                    Py.sorted (_sort_by_total_size stat_map tagmap) true
                      (Py.keys tagmap) !! S i = Some t' →
                    totalSize w db t >= totalSize w db t') as Hadj.
  { intros i t t' Hi Hj. rewrite <-!Htot. apply Z.le_ge.
    pose proof (PyFacts.sorted_sorted (_sort_by_total_size stat_map tagmap)
                  true (Py.keys tagmap)) as Hs.
    apply (StronglySorted_lookup _ _ i (S i) t t' Hs); [lia|done..]. }
  assert (emitted (main w).1 `prefix_of`
          Py.sorted (_sort_by_total_size stat_map tagmap) true (Py.keys tagmap))
    as Hpre'.
  { etrans; [exact Hpre|apply PyFacts.slice_to_prefix]. }
  split_and!; [by rewrite PyFacts.sorted_perm, Hkeys|done|done|].
  intros i l l' Hi Hj.
  destruct (proj1 (Forall_lookup _ _) Hlines _ _ Hi) as [Hl _].
  destruct (proj1 (Forall_lookup _ _) Hlines _ _ Hj) as [Hl' _].
  split_and!; [done..|]. rewrite Hl, Hl'. apply (Hadj i).
  - eapply prefix_lookup_Some; [|exact Hpre'].
    unfold emitted. by rewrite list_lookup_fmap, Hi.
  - eapply prefix_lookup_Some; [|exact Hpre'].
    unfold emitted. by rewrite list_lookup_fmap, Hj.
Qed.

End ranking_order.

Lemma default_mode_ranking_witness :
  emitted (main (Scenario.world ["10"%string] ∅)).1 = ["T1"; "T2"]%string ∧
  ∀ i l l',
    stdout (main (Scenario.world ["10"%string] ∅)).1 !! i = Some l →
    stdout (main (Scenario.world ["10"%string] ∅)).1 !! S i = Some l' →
    rl_used_bytes l >= rl_used_bytes l'.
Proof.
  split; [reflexivity|]. intros i l l' Hi Hj.
  eapply (default_mode_ranking (Scenario.world ["10"%string] ∅));
    [reflexivity|reflexivity|exact Hi|exact Hj].
Defined.

(** C1. In floor mode with floor [N] gigabytes the ranking holds exactly
    the aggregated tags whose total size is at least [N * 1024^3] bytes,
    each once, in ascending order of distinct file count; with [N = 0]
    every aggregated tag is ranked.  The report lists the ranking from its
    start, up to the truncation. *)
Theorem floor_mode_ranking w tr limit db stat_map tagmap keys min_gb N :
  ranking w = (tr, inr (limit, db, stat_map, tagmap, keys)) →
  floor_flag w = Some min_gb → min_gb ≠ EmptyString → builtin_int w min_gb = Some N →
  (∀ t, t ∈ keys ↔ t ∈ tags db ∧ totalSize w db t >= N * 1024 * 1024 * 1024) ∧
  NoDup keys ∧
  (∀ i j t t', keys !! i = Some t → keys !! j = Some t' → (i < j)%nat →
               (fileCount db t ≤ fileCount db t')%nat) ∧
  (N = 0 → keys ≡ₚ tags db) ∧
  emitted (main w).1 `prefix_of` keys ∧
  ((main w).2 = inr tt → emitted (main w).1 = Py.slice_to keys limit).
Proof.
  intros Hrank Hflag Hne HN.
  destruct (main_output w _ _ _ _ _ _ Hrank) as (Hpre & Hok & _).
  apply ranking_inv in Hrank as (_ & _ & Hrk & trf & Hf & _).
  apply fetch_locals in Hf as (_ & Hkeys & _ & _ & _ & _ & _ & _ & Htot & Hcnt).
  rewrite Hflag, rank_floor, HN in Hrk by done.
  set (floor k := N * 1024 * 1024 * 1024 ≤ _sort_by_total_size stat_map tagmap k) in *.
  assert (keys = Py.sorted (_sort_by_count tagmap) false (filter floor (Py.keys tagmap)))
    as Hsorted.
  { destruct (Py.keys tagmap); by injection Hrk as <-. }
  clear Hrk.
  assert (keys ≡ₚ filter floor (tags db)) as Hperm.
  { by rewrite Hsorted, PyFacts.sorted_perm, Hkeys. }
  assert (NoDup (tags db)) as Hnd by apply NoDup_nub.
  split_and!.
  - intros t. rewrite Hperm, list_elem_of_filter. unfold floor. rewrite Htot.
    split; intros [??]; split; done || lia.
  - rewrite Hperm. by apply NoDup_filter.
  - intros i j t t' Hi Hj Hij. apply Nat2Z.inj_le. rewrite <-!Hcnt.
    pose proof (PyFacts.sorted_sorted (_sort_by_count tagmap) false
                  (filter floor (Py.keys tagmap))) as Hs.
    rewrite <-Hsorted in Hs.
    apply (StronglySorted_lookup _ _ i j t t' Hs); done.
  - intros ->. rewrite Hperm, filter_all; [done|].
    intros t _. unfold floor. rewrite Htot. pose proof (totalSize_nonneg w db t). lia.
  - etrans; [exact Hpre|apply PyFacts.slice_to_prefix].
  - apply Hok.
Qed.

Lemma floor_mode_ranking_witness :
  emitted (main (Scenario.world ["10"%string] (Scenario.floor_env "0"))).1
  = ["T2"; "T1"]%string.
Proof.
  pose proof (floor_mode_ranking
                (Scenario.world ["10"%string] (Scenario.floor_env "0"))
                _ _ _ _ _ _ "0"%string 0
                eq_refl eq_refl ltac:(discriminate) eq_refl)
    as (_ & _ & _ & _ & _ & Hout).
  exact (Hout eq_refl).
Defined.

(** ** Failures *)

Lemma ranking_missing_path w db row :
  store w = Some db → row ∈ files db → fs w row.2 = None →
  ∃ e, (ranking w).2 = inl e ∧
       (∀ limit, parse_limit w = ([], inr limit) →
                 ∃ p, e = OSError p ∧ p ∈ (files db).*2 ∧ fs w p = None).
Proof.
  intros Hstore Hrow Hfs. rewrite ranking_eq, Hstore.
  destruct (parse_limit w) as [tr0 [e|limit]]; cbn [snd].
  { exists e. split; [done|]. intros limit. done. }
  destruct (for_each_fetch_row w db (files db) ∅ [])
    as (trf & r & -> & _ & _ & _ & Hr).
  destruct r as [e|[stat_map tagmap]].
  - destruct Hr as (p & -> & Hp & _ & Hnone). eexists. split; [done|].
    intros _ _. by exists p.
  - destruct Hr as (_ & _ & _ & Hin).
    destruct (Hin row.2) as [_ [n Hn]]; [|apply lookup_empty|congruence].
    apply list_elem_of_fmap. by exists row.
Qed.

(** C3. When some file row has a path that cannot be stat-ed, the run
    fails and writes no report line; with a well-formed limit argument the
    failure is the one raised by [stat] on such a path. *)
Theorem missing_path_fatal w db row :
  store w = Some db → row ∈ files db → fs w row.2 = None →
  stdout (main w).1 = [] ∧
  (∃ e, (main w).2 = inl e) ∧
  (∀ limit, parse_limit w = ([], inr limit) →
            ∃ p, (main w).2 = inl (OSError p) ∧ p ∈ (files db).*2 ∧ fs w p = None).
Proof.
  intros Hstore Hrow Hfs.
  destruct (ranking_missing_path w db row Hstore Hrow Hfs) as (e & He & Hlim).
  rewrite (main_ranking_failed w e He). cbn [fst snd].
  split_and!; [apply ranking_trace|by exists e|].
  intros limit Hl. destruct (Hlim limit Hl) as (p & -> & ? & ?). by exists p.
Qed.

Lemma missing_path_fatal_witness :
  stdout (main (Scenario.world_without_b ["10"%string])).1 = [] ∧
  (main (Scenario.world_without_b ["10"%string])).2 = inl (OSError "/b").
Proof.
  destruct (missing_path_fatal (Scenario.world_without_b ["10"%string])
              Scenario.db ("B", "/b")%string eq_refl
              ltac:(right; left) eq_refl) as (Hout & _ & _).
  split; [exact Hout|reflexivity].
Defined.

Lemma fetch_loop_ok w db :
  (∀ row, row ∈ files db → is_Some (fs w row.2)) →
  ∃ trf stat_map tagmap,
    for_each (fetch_row w db) (∅, []) (files db) = (trf, inr (stat_map, tagmap)).
Proof.
  intros Hfs.
  destruct (for_each_fetch_row w db (files db) ∅ [])
    as (trf & r & Heq & _ & _ & _ & Hr).
  destruct r as [e|[stat_map tagmap]]; [|by eauto].
  destruct Hr as (p & _ & Hp & _ & Hnone).
  apply list_elem_of_fmap in Hp as (row & -> & Hrow).
  destruct (Hfs row Hrow) as [n Hn]. congruence.
Qed.

(** C4, as amended.  A limit argument that the interpreter's [int]
    refuses is fatal before anything else happens.  A floor value that it
    refuses is found only by the ranking: the fetch loop has run to its
    end by then, and the run fails, without a report line, when at least
    one tag was aggregated.  This holds for every interpreter. *)
Theorem config_invalid_fatal w :
  (∀ a, argv w !! 1%nat = Some a → builtin_int w a = None →
        main w = ([], inl (ValueError a))) ∧
  (∀ limit db min_gb,
     parse_limit w = ([], inr limit) → store w = Some db →
     (∀ row, row ∈ files db → is_Some (fs w row.2)) →
     floor_flag w = Some min_gb → min_gb ≠ EmptyString → builtin_int w min_gb = None →
     tags db ≠ [] →
     ∃ trf stat_map tagmap,
       for_each (fetch_row w db) (∅, []) (files db) = (trf, inr (stat_map, tagmap)) ∧
       main w = (EvStderr (DiagLimit limit) :: EvQuery QFiles :: trf
                   ++ [EvStderr DiagFetched], inl (ValueError min_gb)) ∧
       stdout (main w).1 = []).
Proof.
  split.
  - intros a Ha Hint.
    assert ((ranking w).2 = inl (ValueError a)) as Hr.
    { by rewrite ranking_eq, parse_limit_eq, Ha, Hint. }
    rewrite (main_ranking_failed w _ Hr). f_equal.
    by rewrite ranking_eq, parse_limit_eq, Ha, Hint.
  - intros limit db min_gb Hlim Hstore Hfs Hflag Hne Hint Htags.
    destruct (fetch_loop_ok w db Hfs) as (trf & stat_map & tagmap & Hf).
    exists trf, stat_map, tagmap. split; [done|].
    pose proof (fetch_locals w db _ _ _ Hf) as (_ & Hkeys & _).
    assert (ranking w = (EvStderr (DiagLimit limit) :: EvQuery QFiles :: trf
                           ++ [EvStderr DiagFetched], inl (ValueError min_gb))) as Hr.
    { rewrite ranking_eq, Hlim, Hstore, Hf, Hflag, rank_floor, Hkeys, Hint by done.
      cbn [snd]. by destruct (tags db). }
    pose proof (proj1 (ranking_trace w)) as Hout.
    rewrite (main_ranking_failed w (ValueError min_gb)) by by rewrite Hr.
    by rewrite Hr in *.
Qed.

Lemma config_invalid_fatal_witness :
  main (Scenario.world ["ten"%string] ∅) = ([], inl (ValueError "ten")) ∧
  (main (Scenario.world [] (Scenario.floor_env "zero"))).2
  = inl (ValueError "zero").
Proof.
  split.
  - exact (proj1 (config_invalid_fatal (Scenario.world ["ten"%string] ∅))
             "ten"%string eq_refl eq_refl).
  - destruct (proj2 (config_invalid_fatal
                       (Scenario.world [] (Scenario.floor_env "zero")))
                50 Scenario.db "zero"%string eq_refl eq_refl)
      as (trf & stat_map & tagmap & _ & -> & _);
      [|reflexivity|discriminate|reflexivity|discriminate|reflexivity].
    intros row Hrow. repeat (apply elem_of_cons in Hrow as [->|Hrow]; [by eexists|]).
    by apply elem_of_nil in Hrow.
Defined.

(** C4, as stated, fails: with a malformed floor value the store has been
    queried and the paths stat-ed before the run fails. *)
Lemma config_invalid_counterexample :
  ¬ (∀ w, malformed_limit w ∨ malformed_floor w →
          ∃ e, (main w).2 = inl e ∧ no_engine_work (main w).1).
Proof.
  intros H.
  destruct (H (Scenario.world [] (Scenario.floor_env "zero"))) as (e & _ & Hwork).
  - right. exists "zero"%string. split_and!; [reflexivity|discriminate|reflexivity].
  - vm_compute in Hwork. apply Forall_cons in Hwork as [_ Hwork].
    by apply Forall_cons in Hwork as [[] _].
Qed.

(** ** The size cache *)

Lemma NoDup_count_once {A} `{EqDecision A} (l : list A) x :
  NoDup l → x ∈ l → length (filter (λ y, y = x) l) = 1%nat.
Proof.
  induction 1 as [|a l Ha Hl IH]; intros Hx; [by apply elem_of_nil in Hx|].
  rewrite filter_cons. apply elem_of_cons in Hx as [->|Hx].
  - rewrite decide_True by done. simpl. f_equal.
    rewrite filter_none; [done|]. intros y Hy ->. done.
  - rewrite decide_False; [by apply IH|]. intros ->. done.
Qed.

Lemma fetch_row_cache_kept w db rows : ∀ stat_map tagmap tr stat_map' tagmap',
  for_each (fetch_row w db) (stat_map, tagmap) rows = (tr, inr (stat_map', tagmap')) →
  stat_map ⊆ stat_map'.
Proof.
  intros stat_map tagmap tr stat_map' tagmap' Hrun.
  destruct (for_each_fetch_row w db rows stat_map tagmap)
    as (tr0 & r & Heq & _ & _ & _ & Hr).
  rewrite Hrun in Heq. injection Heq as <- <-. tauto.
Qed.

(** C5. No path is stat-ed twice in a run.  When the run gets through the
    fetch loop, every distinct path of the file rows is stat-ed exactly
    once, all of it inside that loop; the cache then holds the size of
    each path as [stat] returned it, and the totals are computed from the
    cache alone.  A cache entry, once made, is kept unchanged. *)
Theorem stat_once w :
  NoDup (stats (main w).1) ∧
  (∀ limit db,
     parse_limit w = ([], inr limit) → store w = Some db →
     (∀ row, row ∈ files db → is_Some (fs w row.2)) →
     (∀ p, p ∈ (files db).*2 →
           length (filter (λ q, q = p) (stats (main w).1)) = 1%nat) ∧
     (∀ p, p ∈ stats (main w).1 → p ∈ (files db).*2) ∧
     ∃ trf stat_map tagmap,
       for_each (fetch_row w db) (∅, []) (files db) = (trf, inr (stat_map, tagmap)) ∧
       stats (main w).1 = stats trf ∧
       (∀ p, p ∈ (files db).*2 → stat_map !! p = Some (sizeOf w p)) ∧
       (∀ t, _sort_by_total_size stat_map tagmap t = totalSize w db t)) ∧
  (∀ db rows stat_map tagmap tr stat_map' tagmap',
     for_each (fetch_row w db) (stat_map, tagmap) rows
     = (tr, inr (stat_map', tagmap')) →
     ∀ p v, stat_map !! p = Some v → stat_map' !! p = Some v).
Proof.
  split_and!.
  - rewrite main_stats. apply ranking_trace.
  - intros limit db Hlim Hstore Hfs.
    destruct (fetch_loop_ok w db Hfs) as (trf & stat_map & tagmap & Hf).
    pose proof (fetch_locals w db _ _ _ Hf)
      as (_ & _ & _ & Hnd & Hst & Hsize & _ & _ & Htot & _).
    assert (stats (main w).1 = stats trf) as Hstats.
    { rewrite main_stats, ranking_eq, Hlim, Hstore, Hf. cbn [fst snd].
      change (EvStderr (DiagLimit limit) :: EvQuery QFiles :: trf ++ [EvStderr DiagFetched])
        with ([EvStderr (DiagLimit limit); EvQuery QFiles] ++ trf ++ [EvStderr DiagFetched]).
      rewrite !stats_app. cbn. by rewrite app_nil_r. }
    rewrite Hstats. split_and!.
    + intros p Hp. apply NoDup_count_once; [done|]. by apply Hst.
    + intros p Hp. by apply Hst.
    + exists trf, stat_map, tagmap. split_and!; try done.
      intros p Hp. by apply Hsize.
  - intros db rows stat_map tagmap tr stat_map' tagmap' Hrun p v Hp.
    eapply lookup_weaken; [exact Hp|]. by eapply fetch_row_cache_kept.
Qed.

Lemma stat_once_witness :
  stats (main (Scenario.world ["10"%string] ∅)).1 = ["/a"; "/b"]%string ∧
  length (filter (λ q, q = "/a"%string)
            (stats (main (Scenario.world ["10"%string] ∅)).1)) = 1%nat.
Proof.
  split; [reflexivity|].
  destruct (stat_once (Scenario.world ["10"%string] ∅)) as (_ & H & _).
  destruct (H 10 Scenario.db eq_refl eq_refl) as (Honce & _).
  - intros row Hrow. repeat (apply elem_of_cons in Hrow as [->|Hrow]; [by eexists|]).
    by apply elem_of_nil in Hrow.
  - apply Honce. left.
Defined.

(** ** Set semantics of the aggregation *)

Lemma set_get_id {K V} `{EqDecision K} (d : list (K * V)) k v :
  Py.get d k = Some v → Py.set d k v = d.
Proof.
  induction d as [|[k' v'] d IH]; simpl; [done|].
  case_decide; [by intros [= ->]; subst|]. intros Hg. by rewrite IH.
Qed.

(** A pair that was added before can be added again, at any later point,
    without changing the record. *)
Lemma add_all_again tagmap pairs e :
  e ∈ pairs → add_all tagmap (pairs ++ [e]) = add_all tagmap pairs.
Proof.
  intros He. unfold add_all at 1. rewrite foldl_app. simpl.
  fold (add_all tagmap pairs).
  assert (e.2 ∈ paths_of (add_all tagmap pairs) e.1) as Hin.
  { rewrite paths_of_add_all, elem_of_union, elem_of_list_to_set. right.
    apply list_elem_of_fmap. exists e. split; [done|]. by apply list_elem_of_filter. }
  unfold tagmap_add, paths_of in *.
  destruct (Py.get (add_all tagmap pairs) e.1) as [s|] eqn:Hg; simpl in Hin.
  - apply set_get_id. rewrite Hg. f_equal. apply set_eq. intros p.
    rewrite elem_of_union, elem_of_singleton. split; [tauto|].
    by intros [?| ->].
  - by apply not_elem_of_empty in Hin.
Qed.

Lemma size_list_to_set_nub (l : list string) :
  size (list_to_set (C:=gset string) l) = length (nub l).
Proof.
  rewrite <-(size_list_to_set (C:=gset string) (nub l)) by apply NoDup_nub.
  f_equal. apply set_eq. intros x. by rewrite !elem_of_list_to_set, elem_of_nub.
Qed.

(** C6. After the fetch loop the path collection of every tag is the set
    of the distinct paths of the file rows that carry the tag: it has no
    duplicate, the file count is its cardinality, which is the number of
    distinct such paths, and the tags themselves are distinct.  Adding a
    path under a tag a second time, right away or later, changes nothing. *)
Theorem aggregation_set_semantics w db trf stat_map tagmap :
  for_each (fetch_row w db) (∅, []) (files db) = (trf, inr (stat_map, tagmap)) →
  NoDup (Py.keys tagmap) ∧
  (∀ t, paths_of tagmap t = pathsOf db t ∧
        NoDup (elements (paths_of tagmap t)) ∧
        _sort_by_count tagmap t = Z.of_nat (fileCount db t) ∧
        fileCount db t = length (elements (paths_of tagmap t)) ∧
        fileCount db t =
          length (nub (filter (λ row, t ∈ select_core_hash db row.1) (files db)).*2)) ∧
  (∀ tagmap' t p,
     tagmap_add (tagmap_add tagmap' t p) t p = tagmap_add tagmap' t p) ∧
  (∀ tagmap' pairs e,
     e ∈ pairs → add_all tagmap' (pairs ++ [e]) = add_all tagmap' pairs).
Proof.
  intros Hf.
  pose proof (fetch_locals w db _ _ _ Hf)
    as (_ & Hkeys & _ & _ & _ & _ & _ & Hp & _ & Hcnt).
  split_and!.
  - rewrite Hkeys. apply NoDup_nub.
  - intros t. split_and!; [done|apply NoDup_elements|done| |].
    + by rewrite Hp.
    + unfold fileCount, pathsOf. apply size_list_to_set_nub.
  - apply tagmap_add_idemp.
  - apply add_all_again.
Qed.

Lemma aggregation_set_semantics_witness :
  fileCount Scenario.db "T1" = 2%nat ∧ fileCount Scenario.db "T2" = 1%nat.
Proof.
  destruct (aggregation_set_semantics (Scenario.world [] ∅) Scenario.db
              _ _ _ eq_refl) as (_ & H & _).
  destruct (H "T1"%string) as (_ & _ & _ & _ & ->).
  destruct (H "T2"%string) as (_ & _ & _ & _ & ->).
  split; reflexivity.
Defined.

(** ** Truncation *)

(** C7, as amended.  For a limit that is not negative, a run that
    completes writes the first [limit] entries of the ranking: as many
    lines as the smaller of [limit] and the number of ranked tags, none
    for a limit of 0 and all of them for a limit that is large enough.
    Without a limit argument the limit is 50. *)
Theorem truncation w tr limit db stat_map tagmap keys :
  ranking w = (tr, inr (limit, db, stat_map, tagmap, keys)) →
  (main w).2 = inr tt → 0 ≤ limit →
  emitted (main w).1 = take (Z.to_nat limit) keys ∧
  Z.of_nat (length (stdout (main w).1)) = Z.min limit (Z.of_nat (length keys)) ∧
  (limit = 0 → stdout (main w).1 = []) ∧
  (Z.of_nat (length keys) ≤ limit → emitted (main w).1 = keys) ∧
  (argv w !! 1%nat = None → limit = 50).
Proof.
  intros Hrank Hok Hlim.
  destruct (main_output w _ _ _ _ _ _ Hrank) as (_ & Hout & _).
  apply Hout in Hok. rewrite PyFacts.slice_to_nonneg in Hok by done.
  assert (length (stdout (main w).1) = length (emitted (main w).1)) as Hlen.
  { unfold emitted. by rewrite length_fmap. }
  split_and!.
  - done.
  - rewrite Hlen, Hok, length_take. lia.
  - intros ->. apply length_zero_iff_nil. rewrite Hlen, Hok. done.
  - intros Hge. rewrite Hok. apply take_ge. lia.
  - intros Hargv. apply ranking_inv in Hrank as (Hp & _).
    rewrite parse_limit_eq, Hargv in Hp. by injection Hp.
Qed.

Lemma truncation_witness :
  emitted (main (Scenario.world ["1"%string] ∅)).1 = ["T1"%string] ∧
  emitted (main (Scenario.world [] ∅)).1 = ["T1"; "T2"]%string.
Proof.
  split.
  - exact (proj1 (truncation (Scenario.world ["1"%string] ∅) _ _ _ _ _ _
                    eq_refl eq_refl ltac:(done))).
  - exact (proj1 (truncation (Scenario.world [] ∅) _ _ _ _ _ _
                    eq_refl eq_refl ltac:(done))).
Defined.

(** C7, as stated, fails for a negative limit: with limit -1 and two
    ranked tags one line is written, and the minimum is -1. *)
Lemma truncation_counterexample :
  ¬ (∀ w tr limit db stat_map tagmap keys,
       ranking w = (tr, inr (limit, db, stat_map, tagmap, keys)) →
       (main w).2 = inr tt →
       Z.of_nat (length (stdout (main w).1)) = Z.min limit (Z.of_nat (length keys))).
Proof.
  intros H.
  specialize (H (Scenario.world ["-1"%string] ∅) _ _ _ _ _ _ eq_refl eq_refl).
  vm_compute in H. discriminate.
Qed.

(** C9.  For a negative limit [-k] a run that completes writes the
    ranking without its last [k] entries: that is not the minimum of the
    limit and the number of ranked tags, it is not empty while [k] is
    smaller than that number, and it is empty from there on. *)
Theorem negative_limit w tr limit db stat_map tagmap keys :
  ranking w = (tr, inr (limit, db, stat_map, tagmap, keys)) →
  (main w).2 = inr tt → limit < 0 →
  emitted (main w).1 = take (length keys - Z.to_nat (- limit)) keys ∧
  emitted (main w).1 ++ drop (length keys - Z.to_nat (- limit)) keys = keys ∧
  length (emitted (main w).1) = (length keys - Z.to_nat (- limit))%nat ∧
  Z.of_nat (length (emitted (main w).1)) ≠ Z.min limit (Z.of_nat (length keys)) ∧
  ((Z.to_nat (- limit) < length keys)%nat → emitted (main w).1 ≠ []) ∧
  ((length keys ≤ Z.to_nat (- limit))%nat → emitted (main w).1 = []).
Proof.
  intros Hrank Hok Hlim.
  destruct (main_output w _ _ _ _ _ _ Hrank) as (_ & Hout & _).
  apply Hout in Hok. rewrite PyFacts.slice_to_neg in Hok by done.
  assert (length (emitted (main w).1) = (length keys - Z.to_nat (- limit))%nat) as Hlen.
  { rewrite Hok, length_take. lia. }
  split_and!.
  - done.
  - rewrite Hok. apply take_drop.
  - done.
  - lia.
  - intros Hk Hnil. rewrite Hnil in Hlen. simpl in Hlen. lia.
  - intros Hk. apply length_zero_iff_nil. lia.
Qed.

Lemma negative_limit_witness :
  emitted (main (Scenario.world ["-1"%string] ∅)).1 = ["T1"%string] ∧
  emitted (main (Scenario.world ["-2"%string] ∅)).1 = [].
Proof.
  split.
  - exact (proj1 (negative_limit (Scenario.world ["-1"%string] ∅) _ _ _ _ _ _
                    eq_refl eq_refl ltac:(done))).
  - exact (proj1 (negative_limit (Scenario.world ["-2"%string] ∅) _ _ _ _ _ _
                    eq_refl eq_refl ltac:(done))).
Defined.

(** ** Mode selection *)

(** C8.  Floor mode is selected exactly when the environment variable is
    present with a value that is not the empty string: for every such
    value the ranking is the one of floor mode, with the floor the
    interpreter reads from the value (and the failure of the conversion
    when it reads none and there is a tag to filter).  Without the
    variable, and with the empty string, the ranking is the one of default
    mode; with the value ["0"], read as 0, it is the one of floor mode
    with a floor of 0 bytes. *)
Theorem floor_flag_selects_mode w stat_map tagmap :
  (Py.truthy (floor_flag w) = true ↔
   ∃ v, environ w !! "SORT_BY_COUNT_WITH_MIN_GB"%string = Some v ∧ v ≠ EmptyString) ∧
  (∀ v, environ w !! "SORT_BY_COUNT_WITH_MIN_GB"%string = Some v → v ≠ EmptyString →
     rank w stat_map tagmap (floor_flag w)
     = match Py.keys tagmap with
       | [] => ([], inr [])
       | _ :: _ =>
           match builtin_int w v with
           | Some n =>
               ([], inr (Py.sorted (_sort_by_count tagmap) false
                           (filter (λ k, n * 1024 * 1024 * 1024
                                         ≤ _sort_by_total_size stat_map tagmap k)
                              (Py.keys tagmap))))
           | None => ([], inl (ValueError v))
           end
       end) ∧
  (environ w !! "SORT_BY_COUNT_WITH_MIN_GB"%string = None ∨
   environ w !! "SORT_BY_COUNT_WITH_MIN_GB"%string = Some EmptyString →
   rank w stat_map tagmap (floor_flag w)
   = ([], inr (Py.sorted (_sort_by_total_size stat_map tagmap) true
                 (Py.keys tagmap)))) ∧
  (environ w !! "SORT_BY_COUNT_WITH_MIN_GB"%string = Some "0"%string →
   builtin_int w "0" = Some 0 →
   rank w stat_map tagmap (floor_flag w)
   = ([], inr (Py.sorted (_sort_by_count tagmap) false
                 (filter (λ k, 0 ≤ _sort_by_total_size stat_map tagmap k)
                    (Py.keys tagmap))))).
Proof.
  split_and!.
  - apply PyFacts.truthy_spec.
  - intros v Hv Hne. unfold floor_flag. rewrite Hv. by apply rank_floor.
  - intros Hv. apply rank_default. unfold floor_flag. by destruct Hv as [-> | ->].
  - intros Hv Hint. unfold floor_flag. rewrite Hv, rank_floor, Hint by done.
    by destruct (Py.keys tagmap).
Qed.

Lemma floor_flag_selects_mode_witness :
  rank (Scenario.world [] ∅) Scenario.sizes Scenario.record
    (floor_flag (Scenario.world [] ∅))
  = ([], inr ["T1"; "T2"]%string) ∧
  rank (Scenario.world [] (Scenario.floor_env "")) Scenario.sizes Scenario.record
    (floor_flag (Scenario.world [] (Scenario.floor_env "")))
  = ([], inr ["T1"; "T2"]%string) ∧
  rank (Scenario.world [] (Scenario.floor_env "0")) Scenario.sizes Scenario.record
    (floor_flag (Scenario.world [] (Scenario.floor_env "0")))
  = ([], inr ["T2"; "T1"]%string) ∧
  rank (Scenario.world [] (Scenario.floor_env "5")) Scenario.sizes Scenario.record
    (floor_flag (Scenario.world [] (Scenario.floor_env "5")))
  = ([], inr []) ∧
  rank (Scenario.world [] (Scenario.floor_env "zero")) Scenario.sizes Scenario.record
    (floor_flag (Scenario.world [] (Scenario.floor_env "zero")))
  = ([], inl (ValueError "zero")).
Proof.
  split_and!.
  - exact (proj1 (proj2 (proj2 (floor_flag_selects_mode
             (Scenario.world [] ∅) Scenario.sizes Scenario.record)))
             (or_introl eq_refl)).
  - exact (proj1 (proj2 (proj2 (floor_flag_selects_mode
             (Scenario.world [] (Scenario.floor_env "")) Scenario.sizes
             Scenario.record)))
             (or_intror eq_refl)).
  - exact (proj2 (proj2 (proj2 (floor_flag_selects_mode
             (Scenario.world [] (Scenario.floor_env "0")) Scenario.sizes
             Scenario.record)))
             eq_refl eq_refl).
  - exact (proj1 (proj2 (floor_flag_selects_mode
             (Scenario.world [] (Scenario.floor_env "5")) Scenario.sizes
             Scenario.record))
             "5"%string eq_refl ltac:(discriminate)).
  - exact (proj1 (proj2 (floor_flag_selects_mode
             (Scenario.world [] (Scenario.floor_env "zero")) Scenario.sizes
             Scenario.record))
             "zero"%string eq_refl ltac:(discriminate)).
Defined.

(** ** Stability and determinism *)

Section before.
Context {A : Type} `{EqDecision A}.
Implicit Types (l : list A) (x y : A).

Lemma before_total l x y : x ∈ l → y ∈ l → x ≠ y → before l x y ∨ before l y x.
Proof.
  unfold before. intros Hx Hy Hne.
  apply list_elem_of_split in Hx as (l1 & l2 & ->).
  apply elem_of_app in Hy as [Hy|Hy].
  - right. apply list_elem_of_split in Hy as (k1 & k2 & ->).
    rewrite <-(assoc_L (++)). apply sublist_inserts_l, sublist_skip. simpl.
    apply sublist_inserts_l, sublist_skip, sublist_nil_l.
  - left. apply elem_of_cons in Hy as [->|Hy]; [done|].
    apply list_elem_of_split in Hy as (k1 & k2 & ->).
    apply sublist_inserts_l, sublist_skip, sublist_inserts_l, sublist_skip,
      sublist_nil_l.
Qed.

Lemma before_asym l x y : NoDup l → before l x y → before l y x → False.
Proof.
  unfold before. induction 1 as [|a l Ha Hl IH]; intros Hxy Hyx.
  { by apply sublist_nil_r in Hxy. }
  apply sublist_cons_r in Hxy as [Hxy|(? & [= <- <-] & Hxy)];
    apply sublist_cons_r in Hyx as [Hyx|(? & [= Hay <-] & Hyx)].
  - by apply IH.
  - subst a. apply Ha. by apply (before_elem_of l x y).
  - apply Ha. by apply (before_elem_of l y x).
  - subst y. apply Ha. eapply sublist_subseteq; [exact Hxy|left].
Qed.

Lemma before_filter (P : A → Prop) `{∀ x, Decision (P x)} l x y :
  P x → P y → before l x y → before (filter P l) x y.
Proof.
  unfold before. intros Hx Hy Hs.
  replace [x; y] with (filter P [x; y]); [by apply sublist_filter_mono|].
  by rewrite !filter_cons_True, filter_nil.
Qed.

Lemma before_sublist l1 l2 x y : l1 `sublist_of` l2 → before l1 x y → before l2 x y.
Proof. unfold before. intros ??. by etrans. Qed.
End before.

Lemma for_each_ext {S A} (f g : S → A → Run S) s l :
  (∀ s x, f s x = g s x) → for_each f s l = for_each g s l.
Proof.
  intros Hfg. revert s. induction l as [|x l IH]; intros s; [done|].
  cbn [for_each]. rewrite Hfg. rewrite !bind_eq.
  destruct (g s x).2; [done|]. by rewrite IH.
Qed.

Lemma filterM_ext {A} (p q : A → Run bool) l :
  (∀ x, p x = q x) → filterM p l = filterM q l.
Proof.
  intros Hpq. induction l as [|x l IH]; [done|].
  cbn [filterM]. by rewrite Hpq, IH.
Qed.

Lemma rank_ext w w' stat_map tagmap v :
  (∀ s, builtin_int w' s = builtin_int w s) →
  rank w' stat_map tagmap v = rank w stat_map tagmap v.
Proof.
  intros Hint. unfold rank. destruct v as [min_gb|]; [|done].
  destruct (Py.truthy (Some min_gb)); [|done].
  rewrite (filterM_ext _ (λ k, let total := _sort_by_total_size stat_map tagmap k in
                               n ← int w min_gb;
                               mret (n * 1024 * 1024 * 1024 <=? total))); [done|].
  intros k. unfold int. by rewrite Hint.
Qed.

(** The run depends on the filesystem only through the sizes of the
    paths, and on the interpreter only through what its [int] returns. *)
Lemma main_ext w w' :
  argv w' = argv w → environ w' = environ w → store w' = store w →
  (∀ p, fs w' p = fs w p) → (∀ s, builtin_int w' s = builtin_int w s) →
  main w' = main w.
Proof.
  intros Hargv Henv Hstore Hfs Hint.
  assert (ranking w' = ranking w) as Hrank.
  { rewrite !ranking_eq, !parse_limit_eq. unfold floor_flag.
    rewrite Hargv, Henv, Hstore.
    destruct (argv w !! 1%nat) as [a|];
      [rewrite Hint; destruct (builtin_int w a); [|done]|];
      cbn [snd]; (destruct (store w) as [db|]; [|done]);
      rewrite (for_each_ext (fetch_row w' db) (fetch_row w db))
        by (intros [stat_map tagmap] row; by rewrite !fetch_row_eq, Hfs);
      destruct (for_each (fetch_row w db) (∅, []) (files db))
        as [trf [e|[stat_map tagmap]]]; try done;
      by rewrite (rank_ext w w'). }
  by rewrite !main_eq, Hrank.
Qed.

(** In the ranking, two tags of equal key stand in the order of the
    aggregation record. *)
Lemma ranking_keeps_order w tr limit db stat_map tagmap keys t t' :
  ranking w = (tr, inr (limit, db, stat_map, tagmap, keys)) →
  (if Py.truthy (floor_flag w) then fileCount db t = fileCount db t'
   else totalSize w db t = totalSize w db t') →
  before keys t t' → before (tags db) t t'.
Proof.
  intros Hrank Hkey Hb.
  apply ranking_inv in Hrank as (_ & _ & Hrk & trf & Hf & _).
  apply fetch_locals in Hf as (_ & Hkeys & _ & _ & _ & _ & _ & _ & Htot & Hcnt).
  destruct (Py.truthy (floor_flag w)) eqn:Hflag.
  - apply PyFacts.truthy_spec in Hflag as (min_gb & Hv & Hne).
    rewrite Hv, rank_floor in Hrk by done.
    assert (∃ P : string → Prop, ∃ _ : ∀ x, Decision (P x),
              keys = Py.sorted (_sort_by_count tagmap) false
                       (filter P (Py.keys tagmap))) as (P & HP & ->).
    { destruct (Py.keys tagmap) as [|k0 ks] eqn:Hk.
      - injection Hrk as <-. by exists (λ _, True), _.
      - destruct (builtin_int w min_gb) as [n|]; [|done]. injection Hrk as <-.
        by eexists _, _. }
    rewrite <-Hkeys.
    eapply before_sublist; [apply (sublist_filter P)|].
    eapply before_sublist; [apply (sublist_filter (λ y, _sort_by_count tagmap y
                                                         = _sort_by_count tagmap t))|].
    rewrite <-(PyFacts.sorted_stable _ false). apply before_filter; [done| |done].
    rewrite !Hcnt. by rewrite Hkey.
  - rewrite rank_default in Hrk by done. injection Hrk as <-.
    rewrite <-Hkeys.
    eapply before_sublist;
      [apply (sublist_filter (λ y, _sort_by_total_size stat_map tagmap y
                                   = _sort_by_total_size stat_map tagmap t))|].
    rewrite <-(PyFacts.sorted_stable _ true). apply before_filter; [done| |done].
    by rewrite !Htot.
Qed.

(** C10.  Two ranked tags with equal ranking keys (equal file count in
    floor mode, equal total size in default mode) stand in the ranking,
    and in the report, in the order in which they are first met while the
    rows of the store are scanned; and a run is a function of its inputs:
    two runs on the same arguments, environment, store and file sizes,
    under the same interpreter, produce the same trace and the same
    result. *)
Theorem ranking_stable_deterministic w tr limit db stat_map tagmap keys :
  ranking w = (tr, inr (limit, db, stat_map, tagmap, keys)) →
  (∀ t t',
     t ∈ keys → t' ∈ keys →
     (if Py.truthy (floor_flag w) then fileCount db t = fileCount db t'
      else totalSize w db t = totalSize w db t') →
     (before keys t t' ↔ first_seen_before (encounters db).*1 t t')) ∧
  (∀ t t',
     (if Py.truthy (floor_flag w) then fileCount db t = fileCount db t'
      else totalSize w db t = totalSize w db t') →
     before (emitted (main w).1) t t' →
     first_seen_before (encounters db).*1 t t') ∧
  (∀ w', argv w' = argv w → environ w' = environ w → store w' = store w →
         (∀ p, fs w' p = fs w p) →
         (∀ s, builtin_int w' s = builtin_int w s) → main w' = main w).
Proof.
  intros Hrank.
  assert (∀ t t',
            (if Py.truthy (floor_flag w) then fileCount db t = fileCount db t'
             else totalSize w db t = totalSize w db t') →
            before keys t t' → first_seen_before (encounters db).*1 t t') as Hfwd.
  { intros t t' Hkey Hb. apply before_nub.
    by apply (ranking_keeps_order w tr limit db stat_map tagmap keys). }
  split_and!.
  - intros t t' Ht Ht' Hkey. split; [by apply Hfwd|].
    intros Hseen.
    assert (t ≠ t') as Hne by (by destruct Hseen as (? & ? & _ & _ & _ & ? & _)).
    destruct (before_total keys t t' Ht Ht' Hne) as [?|Hb]; [done|].
    exfalso. apply (before_asym (nub (encounters db).*1) t t').
    + apply NoDup_nub.
    + by apply before_nub.
    + apply before_nub, Hfwd; [|done].
      destruct (Py.truthy (floor_flag w)); by symmetry.
  - intros t t' Hkey Hb. apply Hfwd; [done|].
    destruct (main_output w _ _ _ _ _ _ Hrank) as (Hpre & _).
    assert (emitted (main w).1 `prefix_of` keys) as [k Hk].
    { etrans; [exact Hpre|apply PyFacts.slice_to_prefix]. }
    eapply before_sublist; [|exact Hb].
    rewrite Hk. by apply sublist_inserts_r.
  - intros w'. apply main_ext.
Qed.

Lemma ranking_stable_deterministic_witness :
  emitted (main (Scenario.tie_world ∅)).1 = ["T2"; "T1"]%string ∧
  first_seen_before (encounters Scenario.tie_db).*1 "T2"%string "T1"%string.
Proof.
  split; [reflexivity|].
  refine (proj1 (proj1 (ranking_stable_deterministic (Scenario.tie_world ∅)
                          _ _ _ _ _ _ eq_refl)
                   "T2"%string "T1"%string _ _ eq_refl) _).
  - left.
  - right. left.
  - apply sublist_skip, sublist_skip, sublist_nil_l.
Defined.

(** ** Concrete runs *)

Module Examples.
Local Open Scope string_scope.

(** The interpreter of the scenarios on ASCII literals. *)
Example int_plain : Py.int_ascii "10" = Some 10.
Proof. reflexivity. Qed.

Example int_stripped_negative : Py.int_ascii "  -3 " = Some (-3).
Proof. reflexivity. Qed.

Example int_underscore : Py.int_ascii "1_000" = Some 1000.
Proof. reflexivity. Qed.

Example int_rejects :
  Py.int_ascii "" = None ∧ Py.int_ascii "ten" = None ∧ Py.int_ascii "1__0" = None ∧
  Py.int_ascii "1_" = None ∧ Py.int_ascii "- 3" = None ∧ Py.int_ascii "1.5" = None.
Proof. repeat split. Qed.

(** The separators 0x1C to 0x1F are not stripped. *)
Example int_control_bytes :
  Py.int_ascii (String "1" (String "2" (String (ascii_of_nat 31) ""))) = None ∧
  Py.int_ascii (String (ascii_of_nat 28) "12") = None ∧
  Py.int_ascii (String (ascii_of_nat 9) "12") = Some 12.
Proof. repeat split. Qed.

(** 4300 digits are read, 4301 are refused. *)
Example int_digit_bound :
  is_Some (Py.int_ascii (string_of_list_ascii (replicate 4300 "1"%char))) ∧
  Py.int_ascii (string_of_list_ascii (replicate 4301 "1"%char)) = None.
Proof. split; [vm_compute; by eexists|by vm_compute]. Qed.

Example slice_examples :
  Py.slice_to ["a"; "b"; "c"] 2 = ["a"; "b"] ∧
  Py.slice_to ["a"; "b"; "c"] 7 = ["a"; "b"; "c"] ∧
  Py.slice_to ["a"; "b"; "c"] (-1) = ["a"; "b"] ∧
  Py.slice_to ["a"; "b"; "c"] (-5) = [].
Proof. repeat split. Qed.

(** Equal keys keep their order, also when the sort is reversed. *)
Example sorted_reverse_stable :
  Py.sorted (λ s, Z.of_nat (String.length s)) true ["bb"; "a"; "cc"; "ddd"; "e"]
  = ["ddd"; "bb"; "cc"; "a"; "e"].
Proof. reflexivity. Qed.

(** Default mode, limit 10: [T1] (300 bytes, 2 files), then [T2]. *)
Example default_scenario :
  stdout (main (Scenario.world ["10"] ∅)).1
  = [ {| rl_core_hash := "T1"; rl_tag_text := "one";
         rl_used_bytes := 300; rl_count := 2 |};
      {| rl_core_hash := "T2"; rl_tag_text := "two";
         rl_used_bytes := 100; rl_count := 1 |} ].
Proof. reflexivity. Qed.

(** Floor mode with a floor of 0 GB: [T2] (1 file), then [T1]. *)
Example floor_scenario :
  emitted (main (Scenario.world ["10"] (Scenario.floor_env "0"))).1 = ["T2"; "T1"].
Proof. reflexivity. Qed.

(** A floor of 1 GB leaves no tag. *)
Example floor_one_gb :
  main (Scenario.world ["10"] (Scenario.floor_env "1"))
  = ([EvStderr (DiagLimit 10); EvQuery QFiles;
      EvStat "/a"; EvQuery (QTagsOf "A"); EvStat "/b"; EvQuery (QTagsOf "B");
      EvStderr DiagFetched; EvStderr DiagSorted], inr tt).
Proof. reflexivity. Qed.

(** A deleted path: the run stops at its [stat]. *)
Example missing_scenario :
  main (Scenario.world_without_b ["10"])
  = ([EvStderr (DiagLimit 10); EvQuery QFiles;
      EvStat "/a"; EvQuery (QTagsOf "A"); EvStat "/b"], inl (OSError "/b")).
Proof. reflexivity. Qed.

(** A malformed floor is not noticed when no tag was aggregated. *)
Example malformed_floor_empty_store :
  main {| argv := []; environ := Scenario.floor_env "zero";
          store := Some {| files := []; tag_files := []; hashes := [];
                           tag_names := [] |};
          fs := λ _, None; builtin_int := Py.int_ascii |}
  = ([EvStderr (DiagLimit 50); EvQuery QFiles; EvStderr DiagFetched;
      EvStderr DiagSorted], inr tt).
Proof. reflexivity. Qed.
End Examples.

(** * Further properties of the run *)

(** ** More on runs and traces *)

Lemma stderr_app tr1 tr2 : stderr (tr1 ++ tr2) = stderr tr1 ++ stderr tr2.
Proof. apply omap_app. Qed.

Lemma tag_queries_app tr1 tr2 :
  tag_queries (tr1 ++ tr2) = tag_queries tr1 ++ tag_queries tr2.
Proof. apply omap_app. Qed.

Lemma text_queries_app tr1 tr2 :
  text_queries (tr1 ++ tr2) = text_queries tr1 ++ text_queries tr2.
Proof. apply omap_app. Qed.

Lemma bind_assoc {A B C} (m : Run A) (f : A → Run B) (g : B → Run C) :
  (m ≫= f) ≫= g = m ≫= (λ a, f a ≫= g).
Proof.
  destruct m as [tr [e|a]]; [done|]. simpl.
  destruct (f a) as [tr' [e|b]]; [done|]. simpl.
  destruct (g b) as [tr'' r]. by rewrite (assoc_L (++)).
Qed.

Lemma for_each_app {S A} (body : S → A → Run S) s l1 l2 :
  for_each body s (l1 ++ l2) = for_each body s l1 ≫= λ s', for_each body s' l2.
Proof.
  revert s. induction l1 as [|x l1 IH]; intros s.
  - simpl app. cbn [for_each]. by rewrite bind_ret.
  - simpl app. cbn [for_each]. rewrite bind_assoc.
    destruct (body s x) as [tr [e|s']]; [done|].
    rewrite !(bind_inr _ _ tr s') by done. by rewrite IH.
Qed.

Section fetch_order.
Context (w : World) (db : Db).

(** The fetch loop asks for the tags of every row, in order, and stats
    the paths in the order of their first occurrence. *)
Lemma for_each_fetch_row_order rows : ∀ stat_map tagmap,
  ∃ tr r, for_each (fetch_row w db) (stat_map, tagmap) rows = (tr, r) ∧
    stderr tr = [] ∧ text_queries tr = [] ∧
    match r with
    | inr _ => tag_queries tr = rows.*1 ∧
               stats tr = filter (λ p, stat_map !! p = None) (nub rows.*2)
    | inl _ => True
    end.
Proof.
  induction rows as [|row rows IH]; intros stat_map tagmap.
  { by exists [], (inr (stat_map, tagmap)). }
  cbn [for_each]. rewrite fetch_row_eq. cbv zeta.
  rewrite !fmap_cons. cbn [nub]. rewrite filter_cons.
  destruct (stat_map !! row.2) as [v|] eqn:Hrow.
  - destruct (IH stat_map (add_all tagmap (row_encounters db row)))
      as (tr & r & Hrun & Herr & Htext & Hr).
    rewrite (bind_inr _ _ [EvQuery (QTagsOf row.1)]
               (stat_map, add_all tagmap (row_encounters db row))) by done.
    rewrite Hrun. cbn [fst snd]. eexists _, _. split; [done|].
    split_and!; [done..|]. destruct r as [e|st]; [done|].
    destruct Hr as [Hq Hs]. cbn. split; [by f_equal|].
    rewrite decide_False by done. fold (stats tr). rewrite Hs.
    symmetry. apply list_filter_filter_l. intros p Hp ->. congruence.
  - destruct (fs w row.2) as [n|] eqn:Hfs.
    + destruct (IH (<[row.2 := Z.of_N n]> stat_map)
                   (add_all tagmap (row_encounters db row)))
        as (tr & r & Hrun & Herr & Htext & Hr).
      rewrite (bind_inr _ _ [EvStat row.2; EvQuery (QTagsOf row.1)]
                 (<[row.2 := Z.of_N n]> stat_map,
                  add_all tagmap (row_encounters db row))) by done.
      rewrite Hrun. cbn [fst snd]. eexists _, _. split; [done|].
      split_and!; [done..|]. destruct r as [e|st]; [done|].
      destruct Hr as [Hq Hs]. cbn. split; [by f_equal|].
      rewrite decide_True by done. f_equal. fold (stats tr).
      rewrite Hs, list_filter_filter.
      apply list_filter_iff. intros p. rewrite lookup_insert_None.
      split; [intros [? ?]|intros [? ?]]; split; done || congruence.
    + eexists _, _. split; [done|]. done.
Qed.
End fetch_order.

(** ** More on the report loop *)

Section report_run.
Context (stat_map : gmap string Z) (tagmap : list (string * gset string)) (db : Db).

(** The report loop asks for the display text of one key after the
    other, writes a line with the first text found, and stops at the
    first key without a text. *)
Lemma report_run keys :
  ∃ tr r, report stat_map tagmap db keys = (tr, r) ∧
    stderr tr = [] ∧ tag_queries tr = [] ∧
    Forall (λ l, fetchone (select_tag_text db (rl_core_hash l))
                 = Some (rl_tag_text l)) (stdout tr) ∧
    match r with
    | inr _ => emitted tr = keys ∧ text_queries tr = keys ∧ Forall (named db) keys
    | inl e => ∃ k rest, keys = emitted tr ++ k :: rest ∧ e = TypeError k ∧
                         ¬ named db k ∧ text_queries tr = emitted tr ++ [k] ∧
                         Forall (named db) (emitted tr)
    end.
Proof.
  unfold report. generalize tt.
  induction keys as [|k keys IH]; intros u.
  { exists [], (inr u). split_and!; done. }
  cbn [for_each]. rewrite report_row_eq. unfold named.
  destruct (select_tag_text db k) as [|tag_text rows] eqn:Hsel.
  - eexists _, _. split; [done|]. split_and!; try done.
    exists k, keys. split_and!; try done. intros Hn. by apply Hn.
  - destruct (IH tt) as (tr & r & Hrun & Herr & Hq & Hl & Hr).
    rewrite (bind_inr _ _ _ tt) by done. rewrite Hrun. cbn [fst snd].
    eexists _, _. split; [done|].
    rewrite stderr_app, tag_queries_app, stdout_app, Herr, Hq.
    split_and!; [done..| |].
    + cbn. constructor; [|done]. cbn. by rewrite Hsel.
    + rewrite emitted_app, text_queries_app.
      change (emitted [_; _]) with [k]. change (text_queries [_; _]) with [k].
      assert (named db k) as Hk by (unfold named; by rewrite Hsel).
      destruct r as [e|?].
      * destruct Hr as (k' & rest & Hkeys & -> & Hn & Hq' & Hall).
        exists k', rest. split_and!; try done.
        -- cbn. by rewrite Hkeys at 1.
        -- cbn. by rewrite Hq'.
        -- by constructor.
      * destruct Hr as (-> & -> & Hall). split_and!; try done. by constructor.
Qed.
End report_run.

Section main_report.
Context (w : World).

Lemma main_report tr limit db stat_map tagmap keys :
  ranking w = (tr, inr (limit, db, stat_map, tagmap, keys)) →
  ∃ trr rr,
    report stat_map tagmap db (Py.slice_to keys limit) = (trr, rr) ∧
    main w = (tr ++ trr ++ (if rr is inr _ then [EvStderr DiagSorted] else []),
              rr).
Proof.
  intros Hrank. rewrite main_eq, Hrank.
  destruct (report stat_map tagmap db (Py.slice_to keys limit))
    as [trr [e|[]]]; eexists _, _; (split; [done|]); by rewrite ?app_nil_r.
Qed.

(** The trace of a run up to the ranking. *)
Lemma ranking_trace_ok tr limit db stat_map tagmap keys :
  ranking w = (tr, inr (limit, db, stat_map, tagmap, keys)) →
  stderr tr = [DiagLimit limit; DiagFetched] ∧
  tag_queries tr = (files db).*1 ∧
  stats tr = nub (files db).*2 ∧
  text_queries tr = [] ∧ stdout tr = [].
Proof.
  intros Hrank. pose proof (ranking_trace w) as [Hout _].
  rewrite Hrank in Hout. cbn [fst] in Hout.
  apply ranking_inv in Hrank as (_ & _ & _ & trf & Hf & ->).
  destruct (for_each_fetch_row_order w db (files db) ∅ [])
    as (tr0 & r0 & Hrun & Herr & Htext & Hr).
  rewrite Hf in Hrun. injection Hrun as <- <-. destruct Hr as [Hq Hs].
  change (EvStderr (DiagLimit limit) :: EvQuery QFiles :: trf ++ [EvStderr DiagFetched])
    with ([EvStderr (DiagLimit limit); EvQuery QFiles] ++ trf ++ [EvStderr DiagFetched]).
  rewrite !stderr_app, !tag_queries_app, !stats_app, !text_queries_app.
  rewrite Herr, Htext, Hq, Hs. cbn. rewrite !app_nil_r.
  split_and!; try done.
  apply filter_all. intros p _. apply lookup_empty.
Qed.
End main_report.

(** ** The store cannot be opened *)

(** X1.  When the store cannot be opened, a run with a well-formed limit
    writes the limit diagnostic and fails on the connection: no query, no
    stat and no report line. *)
Theorem store_unavailable w limit :
  store w = None → parse_limit w = ([], inr limit) →
  main w = ([EvStderr (DiagLimit limit)], inl OperationalError).
Proof.
  intros Hstore Hlim.
  assert (ranking w = ([EvStderr (DiagLimit limit)], inl OperationalError)) as Hr.
  { by rewrite ranking_eq, Hlim, Hstore. }
  rewrite (main_ranking_failed w OperationalError); by rewrite Hr.
Qed.

Lemma store_unavailable_witness :
  main (Scenario.no_store_world ["3"%string])
  = ([EvStderr (DiagLimit 3)], inl OperationalError).
Proof.
  exact (store_unavailable (Scenario.no_store_world ["3"%string]) 3 eq_refl eq_refl).
Defined.

(** ** Display texts *)

Lemma first_failure_unique {A} (P : A → Prop) l1 x r1 l2 y r2 :
  l1 ++ x :: r1 = l2 ++ y :: r2 →
  Forall P l1 → ¬ P x → Forall P l2 → ¬ P y → l1 = l2 ∧ x = y.
Proof.
  revert l2. induction l1 as [|a l1 IH]; intros [|b l2] Heq H1 Hx H2 Hy;
    simplify_eq/=.
  - done.
  - by apply Forall_cons in H2 as [? _].
  - by apply Forall_cons in H1 as [? _].
  - apply Forall_cons in H1 as [_ H1], H2 as [_ H2].
    destruct (IH l2) as [-> ->]; done.
Qed.

(** X2.  When a key of the truncated ranking has no display text, the
    report is partial: the lines of the keys before it have been written,
    the run fails on that key, and the closing diagnostic is missing. *)
Theorem report_stops_at_nameless w tr limit db stat_map tagmap keys done k rest :
  ranking w = (tr, inr (limit, db, stat_map, tagmap, keys)) →
  Py.slice_to keys limit = done ++ k :: rest →
  Forall (named db) done → ¬ named db k →
  (main w).2 = inl (TypeError k) ∧
  emitted (main w).1 = done ∧
  text_queries (main w).1 = done ++ [k] ∧
  stderr (main w).1 = [DiagLimit limit; DiagFetched].
Proof.
  intros Hrank Hslice Hdone Hk.
  destruct (main_report w _ _ _ _ _ _ Hrank) as (trr & rr & Hrep & ->).
  destruct (ranking_trace_ok w _ _ _ _ _ _ Hrank) as (Herr & _ & _ & Htext & Hout).
  destruct (report_run stat_map tagmap db (Py.slice_to keys limit))
    as (tr0 & r0 & Hrun & Herr' & _ & _ & Hr).
  rewrite Hrep in Hrun. injection Hrun as <- <-.
  destruct rr as [e|u].
  - destruct Hr as (k' & rest' & Hkeys & -> & Hn & Hq & Hall).
    rewrite Hslice in Hkeys.
    destruct (first_failure_unique (named db) _ _ _ _ _ _ Hkeys) as [-> ->];
      try done.
    cbn [fst snd]. rewrite app_nil_r, emitted_app, text_queries_app, stderr_app.
    unfold emitted at 1. rewrite Hout, Htext, Herr, Herr', Hq. done.
  - destruct Hr as (_ & _ & Hall). rewrite Hslice in Hall.
    apply Forall_app in Hall as [_ Hall]. by apply Forall_cons in Hall as [? _].
Qed.

Lemma report_stops_at_nameless_witness :
  main (Scenario.nameless_world ["10"%string])
  = ([EvStderr (DiagLimit 10); EvQuery QFiles;
      EvStat "/a"; EvQuery (QTagsOf "A"); EvStat "/b"; EvQuery (QTagsOf "B");
      EvStderr DiagFetched; EvQuery (QTagText "T1");
      EvStdout {| rl_core_hash := "T1"; rl_tag_text := "one";
                  rl_used_bytes := 300; rl_count := 2 |};
      EvQuery (QTagText "T2")]%string, inl (TypeError "T2")) ∧
  emitted (main (Scenario.nameless_world ["10"%string])).1 = ["T1"%string].
Proof.
  split; [reflexivity|].
  refine (proj1 (proj2 (report_stops_at_nameless
                          (Scenario.nameless_world ["10"%string])
                          _ _ _ _ _ _ ["T1"%string] "T2"%string [] eq_refl eq_refl
                          _ _))).
  - by repeat constructor.
  - intros Hn. by apply Hn.
Defined.

(** X3.  A run that reaches the report completes exactly when every key
    of the truncated ranking has a display text.  Every line written
    carries the first display text of its tag, the total size of the tag
    and its file count. *)
Theorem report_lines w tr limit db stat_map tagmap keys :
  ranking w = (tr, inr (limit, db, stat_map, tagmap, keys)) →
  ((main w).2 = inr tt ↔ Forall (named db) (Py.slice_to keys limit)) ∧
  Forall (λ l, fetchone (select_tag_text db (rl_core_hash l)) = Some (rl_tag_text l) ∧
               rl_used_bytes l = totalSize w db (rl_core_hash l) ∧
               rl_count l = fileCount db (rl_core_hash l)) (stdout (main w).1).
Proof.
  intros Hrank.
  destruct (main_output w _ _ _ _ _ _ Hrank) as (_ & _ & Hsizes).
  destruct (main_report w _ _ _ _ _ _ Hrank) as (trr & rr & Hrep & Hmain).
  destruct (ranking_trace_ok w _ _ _ _ _ _ Hrank) as (_ & _ & _ & _ & Hout).
  destruct (report_run stat_map tagmap db (Py.slice_to keys limit))
    as (tr0 & r0 & Hrun & _ & _ & Hl & Hr).
  rewrite Hrep in Hrun. injection Hrun as <- <-.
  split.
  - rewrite Hmain. cbn [snd]. destruct rr as [e|[]].
    + destruct Hr as (k & rest & Hkeys & _ & Hn & _). split; [done|].
      rewrite Hkeys. intros [_ Hall]%Forall_app.
      by apply Forall_cons in Hall as [? _].
    + by destruct Hr as (_ & _ & ?).
  - apply Forall_forall. intros l Hin.
    split; [|by apply (proj1 (Forall_forall _ _) Hsizes)].
    rewrite Hmain in Hin. cbn [fst] in Hin.
    rewrite !stdout_app, Hout in Hin. cbn [app] in Hin.
    apply elem_of_app in Hin as [Hin|Hin].
    + by apply (proj1 (Forall_forall _ _) Hl).
    + destruct rr; cbn in Hin; by apply elem_of_nil in Hin.
Qed.

Lemma report_lines_witness :
  stdout (main (Scenario.nameless_world ["1"%string])).1
  = [ {| rl_core_hash := "T1"; rl_tag_text := "one";
         rl_used_bytes := 300; rl_count := 2 |} ]%string ∧
  (main (Scenario.nameless_world ["1"%string])).2 = inr tt.
Proof.
  split; [reflexivity|].
  apply (proj1 (report_lines (Scenario.nameless_world ["1"%string])
                  _ _ _ _ _ _ eq_refl)).
  repeat constructor. intros Hn. discriminate Hn.
Defined.

Section traces_general.
Context (w : World).

Lemma rank_failure stat_map tagmap v e :
  (rank w stat_map tagmap v).2 = inl e →
  ∃ min_gb, e = ValueError min_gb ∧ v = Some min_gb ∧ builtin_int w min_gb = None.
Proof.
  destruct (Py.truthy v) eqn:Hv.
  - apply PyFacts.truthy_spec in Hv as (s & -> & Hs). rewrite rank_floor by done.
    destruct (Py.keys tagmap); [done|].
    destruct (builtin_int w s) eqn:Hint; [done|]. intros [= <-]. by exists s.
  - by rewrite rank_default.
Qed.

(** What the part of the run before the report leaves on the trace. *)
Lemma ranking_trace_general :
  text_queries (ranking w).1 = [] ∧
  match (ranking w).2 with
  | inr (limit, _, _, _, _) => stderr (ranking w).1 = [DiagLimit limit; DiagFetched]
  | inl (ValueError a) =>
      stderr (ranking w).1 = [] ∧ argv w !! 1%nat = Some a ∨
      ∃ limit, stderr (ranking w).1 = [DiagLimit limit; DiagFetched] ∧
               floor_flag w = Some a
  | inl OperationalError | inl (OSError _) =>
      ∃ limit, stderr (ranking w).1 = [DiagLimit limit]
  | inl (TypeError _) => False
  end.
Proof.
  rewrite ranking_eq. pose proof (parse_limit_eq w) as Hp.
  destruct (parse_limit w) as [tr0 [e|limit]]; cbn [snd].
  { split; [done|]. destruct (argv w !! 1%nat) as [a|]; [|done].
    destruct (builtin_int w a); [done|]. injection Hp as -> ->. by left. }
  clear Hp. destruct (store w) as [db|]; [|split; [done|by eexists]].
  destruct (for_each_fetch_row w db (files db) ∅ [])
    as (trf & r & Heq & _ & _ & _ & Hr).
  destruct (for_each_fetch_row_order w db (files db) ∅ [])
    as (trf' & r' & Heq' & Herr & Htext & _).
  rewrite Heq in Heq'. injection Heq' as <- <-. rewrite Heq.
  destruct r as [e|[stat_map tagmap]]; cbn [fst snd].
  - destruct Hr as (p & -> & _).
    change (EvStderr (DiagLimit limit) :: EvQuery QFiles :: trf)
      with ([EvStderr (DiagLimit limit); EvQuery QFiles] ++ trf).
    rewrite text_queries_app, stderr_app, Htext, Herr.
    split; [done|by eexists].
  - change (EvStderr (DiagLimit limit) :: EvQuery QFiles :: trf ++ [EvStderr DiagFetched])
      with ([EvStderr (DiagLimit limit); EvQuery QFiles] ++ trf ++ [EvStderr DiagFetched]).
    rewrite !text_queries_app, !stderr_app, Htext, Herr. split; [done|].
    destruct (rank w stat_map tagmap (floor_flag w)).2 as [e|keys] eqn:Hrk; [|done].
    apply rank_failure in Hrk as (s & -> & Hv & _). right. by eexists.
Qed.
End traces_general.

(** X4.  The display text of a tag is asked for only when its line is
    about to be written: the text queries of a run are the keys of the
    lines written, followed by the key the run failed on if it failed in
    the report, and they are an initial part of the truncated ranking. *)
Theorem tag_text_lazy w :
  (text_queries (main w).1 = emitted (main w).1 ∨
   ∃ k, text_queries (main w).1 = emitted (main w).1 ++ [k] ∧
        (main w).2 = inl (TypeError k)) ∧
  (∀ tr limit db stat_map tagmap keys,
     ranking w = (tr, inr (limit, db, stat_map, tagmap, keys)) →
     text_queries (main w).1 `prefix_of` Py.slice_to keys limit).
Proof.
  destruct (ranking w) as [tr [e|[[[[limit db] stat_map] tagmap] keys]]] eqn:Hrank.
  - pose proof (ranking_trace_general w) as [Htext _].
    pose proof (ranking_trace w) as [Hout _].
    rewrite (main_ranking_failed w e) by by rewrite Hrank.
    split; [|done]. left. cbn [fst]. unfold emitted. by rewrite Htext, Hout.
  - destruct (main_report w _ _ _ _ _ _ Hrank) as (trr & rr & Hrep & ->).
    destruct (ranking_trace_ok w _ _ _ _ _ _ Hrank) as (_ & _ & _ & Htext & Hout).
    destruct (report_run stat_map tagmap db (Py.slice_to keys limit))
      as (tr0 & r0 & Hrun & _ & _ & _ & Hr).
    rewrite Hrep in Hrun. injection Hrun as <- <-. cbn [fst snd].
    assert (text_queries (tr ++ trr ++ (if rr is inr _ then [EvStderr DiagSorted] else []))
            = text_queries trr) as ->.
    { rewrite !text_queries_app, Htext. destruct rr; cbn; by rewrite app_nil_r. }
    assert (emitted (tr ++ trr ++ (if rr is inr _ then [EvStderr DiagSorted] else []))
            = emitted trr) as ->.
    { rewrite !emitted_app. unfold emitted at 1. rewrite Hout.
      destruct rr; cbn; by rewrite app_nil_r. }
    destruct rr as [e|u].
    + destruct Hr as (k & rest & Hkeys & -> & _ & Hq & _). split.
      * right. by exists k.
      * intros ?????? [= <- <- <- <- <- <-]. rewrite Hq, Hkeys.
        apply prefix_app. by exists rest.
    + destruct Hr as (He & Hq & _). split; [left; congruence|].
      intros ?????? [= <- <- <- <- <- <-]. by rewrite Hq.
Qed.

Lemma tag_text_lazy_witness :
  text_queries (main (Scenario.world ["1"%string] ∅)).1 = ["T1"%string] ∧
  text_queries (main (Scenario.world ["1"%string] ∅)).1 `prefix_of` ["T1"%string].
Proof.
  split; [reflexivity|].
  exact (proj2 (tag_text_lazy (Scenario.world ["1"%string] ∅)) _ _ _ _ _ _ eq_refl).
Defined.

(** X5.  The diagnostics tell how far a run got: all three after a
    complete run; none when the limit is malformed; only the limit when
    the store cannot be opened or a path cannot be stat-ed; the limit and
    the fetch diagnostic when the floor is malformed or a display text is
    missing. *)
Theorem diagnostics_progress w :
  match (main w).2 with
  | inr _ => ∃ limit, stderr (main w).1 = [DiagLimit limit; DiagFetched; DiagSorted]
  | inl (ValueError a) =>
      stderr (main w).1 = [] ∧ argv w !! 1%nat = Some a ∨
      ∃ limit, stderr (main w).1 = [DiagLimit limit; DiagFetched] ∧
               floor_flag w = Some a
  | inl OperationalError | inl (OSError _) =>
      ∃ limit, stderr (main w).1 = [DiagLimit limit]
  | inl (TypeError _) => ∃ limit, stderr (main w).1 = [DiagLimit limit; DiagFetched]
  end.
Proof.
  pose proof (ranking_trace_general w) as [_ Hgen].
  destruct (ranking w) as [tr [e|[[[[limit db] stat_map] tagmap] keys]]] eqn:Hrank.
  - rewrite (main_ranking_failed w e) by by rewrite Hrank.
    rewrite Hrank. cbn [fst snd] in *. by destruct e.
  - destruct (main_report w _ _ _ _ _ _ Hrank) as (trr & rr & Hrep & ->).
    destruct (report_run stat_map tagmap db (Py.slice_to keys limit))
      as (tr0 & r0 & Hrun & Herr & _ & _ & Hr).
    rewrite Hrep in Hrun. injection Hrun as <- <-. cbn [fst snd] in *.
    rewrite !stderr_app, Hgen, Herr.
    destruct rr as [e|u].
    + destruct Hr as (k & _ & _ & -> & _). by exists limit.
    + by exists limit.
Qed.

(** ** What is aggregated, and what is asked of the store *)

Lemma elem_of_select_core_hash db file_hash t :
  t ∈ select_core_hash db file_hash ↔
  (file_hash, t) ∈ tag_files db ∧ t ∈ hashes db.
Proof.
  unfold select_core_hash. rewrite list_elem_of_bind. split.
  - intros ([fh ch] & Hin & Htf). simpl in Hin. case_decide as Hfh; simpl in *.
    + subst fh. apply list_elem_of_filter in Hin as [-> Hin]. done.
    + by apply elem_of_nil in Hin.
  - intros [Htf Hh]. exists (file_hash, t). split; [|done]. simpl.
    rewrite decide_True by done. by apply list_elem_of_filter.
Qed.

(** X6.  After the fetch loop a tag is a key of the aggregation record
    exactly when some file row's hash is paired with it in [tag_files] and
    the tag is in [hashes]; every key has at least one path; and the size
    cache holds exactly the paths of the file rows, tagged or not. *)
Theorem tag_aggregated_iff w db trf stat_map tagmap :
  for_each (fetch_row w db) (∅, []) (files db) = (trf, inr (stat_map, tagmap)) →
  (∀ t, t ∈ Py.keys tagmap ↔
        ∃ row, row ∈ files db ∧ (row.1, t) ∈ tag_files db ∧ t ∈ hashes db) ∧
  (∀ t, t ∈ Py.keys tagmap → (1 ≤ size (paths_of tagmap t))%nat) ∧
  (∀ p, is_Some (stat_map !! p) ↔ p ∈ (files db).*2).
Proof.
  intros Hf.
  pose proof (fetch_locals w db _ _ _ Hf)
    as (_ & Hkeys & _ & _ & _ & Hsize & Hnone & Hp & _).
  split_and!.
  - intros t. rewrite Hkeys. unfold tags. rewrite elem_of_nub, list_elem_of_fmap.
    split.
    + intros ([t' p] & -> & Hin). apply elem_of_encounters in Hin as (row & ? & _ & Hsel).
      apply elem_of_select_core_hash in Hsel as [??]. by exists row.
    + intros (row & Hrow & Htf & Hh). exists (t, row.2). split; [done|].
      apply elem_of_encounters. exists row. split_and!; try done.
      by apply elem_of_select_core_hash.
  - intros t Ht. rewrite Hkeys in Ht. apply elem_of_tags in Ht. rewrite Hp.
    destruct (size (pathsOf db t)) eqn:Hsz; [|lia].
    apply size_empty_iff in Hsz. by apply leibniz_equiv in Hsz.
  - intros p. split.
    + intros [v Hv]. destruct (decide (p ∈ (files db).*2)) as [|Hn]; [done|].
      rewrite (Hnone p Hn) in Hv. done.
    + intros Hin. destruct (Hsize p Hin) as [_ ->]. by eexists.
Qed.

Lemma tag_aggregated_iff_witness :
  ∃ row, row ∈ files Scenario.copies_db ∧
         (row.1, "T1"%string) ∈ tag_files Scenario.copies_db ∧
         "T1"%string ∈ hashes Scenario.copies_db.
Proof.
  apply (proj1 (tag_aggregated_iff (Scenario.copies_world []) Scenario.copies_db
                  _ _ _ eq_refl) "T1"%string).
  left.
Defined.

Lemma main_tag_queries w : tag_queries (main w).1 = tag_queries (ranking w).1.
Proof.
  rewrite main_eq.
  destruct (ranking w) as [tr [e|[[[[limit db] stat_map] tagmap] keys]]]; [done|].
  destruct (report_run stat_map tagmap db (Py.slice_to keys limit))
    as (trr & rr & -> & _ & Hq & _).
  destruct rr as [e|?]; cbn [fst]; rewrite !tag_queries_app, Hq, ?app_nil_r; done.
Qed.

Lemma ranking_fetch_trace w limit db trf r :
  parse_limit w = ([], inr limit) → store w = Some db →
  for_each (fetch_row w db) (∅, []) (files db) = (trf, r) →
  stats (ranking w).1 = stats trf ∧ tag_queries (ranking w).1 = tag_queries trf ∧
  ∀ e, r = inl e → (ranking w).2 = inl e.
Proof.
  intros Hlim Hstore Hf. rewrite ranking_eq, Hlim, Hstore, Hf. cbn [snd].
  destruct r as [e|[stat_map tagmap]]; cbn [fst snd].
  - split_and!; [done..|]. by intros ? [= <-].
  - change (EvStderr (DiagLimit limit) :: EvQuery QFiles :: trf ++ [EvStderr DiagFetched])
      with ([EvStderr (DiagLimit limit); EvQuery QFiles] ++ trf ++ [EvStderr DiagFetched]).
    rewrite !stats_app, !tag_queries_app. cbn. rewrite !app_nil_r.
    split_and!; done.
Qed.

(** X7.  When the run gets through the fetch loop, the tags of every file
    row have been asked for, row by row and in order, also when a file
    hash occurs in several rows; and the paths have been stat-ed in the
    order of their first occurrence. *)
Theorem tags_queried_per_row w limit db :
  parse_limit w = ([], inr limit) → store w = Some db →
  (∀ row, row ∈ files db → is_Some (fs w row.2)) →
  tag_queries (main w).1 = (files db).*1 ∧
  stats (main w).1 = nub (files db).*2.
Proof.
  intros Hlim Hstore Hfs.
  destruct (fetch_loop_ok w db Hfs) as (trf & stat_map & tagmap & Hf).
  destruct (ranking_fetch_trace w limit db trf _ Hlim Hstore Hf) as (Hs & Hq & _).
  destruct (for_each_fetch_row_order w db (files db) ∅ [])
    as (tr0 & r0 & Hrun & _ & _ & Hr).
  rewrite Hf in Hrun. injection Hrun as <- <-. destruct Hr as [Hq' Hs'].
  rewrite main_tag_queries, main_stats, Hs, Hq, Hq', Hs'.
  split; [done|]. apply filter_all. intros p _. apply lookup_empty.
Qed.

Lemma tags_queried_per_row_witness :
  tag_queries (main (Scenario.copies_world [])).1 = ["A"; "A"; "C"]%string ∧
  stats (main (Scenario.copies_world [])).1 = ["/a"; "/b"; "/c"]%string.
Proof.
  refine (tags_queried_per_row (Scenario.copies_world []) 50 Scenario.copies_db
            eq_refl eq_refl _).
  intros row Hrow. by eexists.
Defined.

(** X8.  The run fails on the first row, in the order of the store, whose
    path cannot be stat-ed: the rows before it have been processed, their
    distinct paths stat-ed and their tags asked for, and nothing after it
    has been touched. *)
Theorem first_missing_path w limit db rows1 row rows2 :
  parse_limit w = ([], inr limit) → store w = Some db →
  files db = rows1 ++ row :: rows2 →
  (∀ r, r ∈ rows1 → is_Some (fs w r.2)) → fs w row.2 = None →
  (main w).2 = inl (OSError row.2) ∧
  stats (main w).1 = nub rows1.*2 ++ [row.2] ∧
  tag_queries (main w).1 = rows1.*1 ∧
  stdout (main w).1 = [].
Proof.
  intros Hlim Hstore Hfiles Hfs Hrow.
  destruct (for_each_fetch_row w db rows1 ∅ [])
    as (tr1 & r1 & Hrun1 & _ & _ & _ & Hr1).
  destruct (for_each_fetch_row_order w db rows1 ∅ [])
    as (tr1' & r1' & Hrun1' & _ & _ & Hr1').
  rewrite Hrun1 in Hrun1'. injection Hrun1' as <- <-.
  destruct r1 as [e|[stat_map tagmap]].
  { destruct Hr1 as (p & _ & Hp & _ & Hnone).
    apply list_elem_of_fmap in Hp as (r & -> & Hr).
    destruct (Hfs r Hr) as [n Hn]. congruence. }
  destruct Hr1 as (_ & _ & Hlk & Hin). destruct Hr1' as [Hq Hs].
  assert (stat_map !! row.2 = None) as Hnone.
  { rewrite Hlk, lookup_empty. case_decide as Hd; [|done].
    destruct (Hin row.2 Hd) as [_ [n Hn]]; [apply lookup_empty|congruence]. }
  assert (for_each (fetch_row w db) (∅, []) (files db)
          = (tr1 ++ [EvStat row.2], inl (OSError row.2))) as Hf.
  { rewrite Hfiles, for_each_app, (bind_inr _ _ tr1 (stat_map, tagmap)) by done.
    cbn [for_each]. by rewrite fetch_row_eq, Hnone, Hrow. }
  destruct (ranking_fetch_trace w limit db _ _ Hlim Hstore Hf) as (Hs' & Hq' & He).
  specialize (He _ eq_refl). pose proof (ranking_trace w) as [Hout _].
  rewrite main_stats, main_tag_queries, Hs', Hq', stats_app, tag_queries_app.
  rewrite (main_ranking_failed w _ He). cbn [fst snd].
  rewrite Hs, Hq. cbn. rewrite app_nil_r. split_and!; try done.
  f_equal. apply filter_all. intros p _. apply lookup_empty.
Qed.

Lemma first_missing_path_witness :
  stats (main (Scenario.world_without_b ["10"%string])).1 = ["/a"; "/b"]%string ∧
  tag_queries (main (Scenario.world_without_b ["10"%string])).1 = ["A"%string].
Proof.
  destruct (first_missing_path (Scenario.world_without_b ["10"%string]) 10
              Scenario.db [("A", "/a")]%string ("B", "/b")%string []
              eq_refl eq_refl eq_refl) as (_ & Hs & Hq & _).
  - intros r ->%list_elem_of_singleton. by eexists.
  - reflexivity.
  - split; [exact Hs|exact Hq].
Defined.

(** ** The floor *)

Lemma StronglySorted_filter {A} (R : relation A) (P : A → Prop)
    `{∀ x, Decision (P x)} l :
  StronglySorted R l → StronglySorted R (filter P l).
Proof.
  induction 1 as [|x l Hl IH Hx]; [constructor|].
  rewrite filter_cons. case_decide; [|done]. constructor; [done|].
  apply Forall_forall. intros y [_ Hy]%list_elem_of_filter.
  by apply (proj1 (Forall_forall _ _) Hx).
Qed.

(** Filtering commutes with the stable sort. *)
Lemma sorted_filter_comm {A} (key : A → Z) (reverse : bool) (P : A → Prop)
    `{∀ x, Decision (P x)} l :
  filter P (Py.sorted key reverse l) = Py.sorted key reverse (filter P l).
Proof.
  apply PyFacts.sorted_unique.
  - apply StronglySorted_filter, PyFacts.sorted_sorted.
  - intros k.
    trans (filter P (filter (λ y, key y = k) (Py.sorted key reverse l))).
    { rewrite !list_filter_filter. apply list_filter_iff. tauto. }
    rewrite PyFacts.sorted_stable, !list_filter_filter.
    apply list_filter_iff. tauto.
Qed.

(** X9.  Raising the floor only removes entries from the floor-mode
    ranking: the ranking for the higher floor is the ranking for the lower
    floor without the tags below the higher floor, in the same order. *)
Theorem floor_raise w stat_map tagmap min_gb min_gb' N N' :
  min_gb ≠ EmptyString → min_gb' ≠ EmptyString →
  builtin_int w min_gb = Some N → builtin_int w min_gb' = Some N' → N ≤ N' →
  ∃ keys keys',
    rank w stat_map tagmap (Some min_gb) = ([], inr keys) ∧
    rank w stat_map tagmap (Some min_gb') = ([], inr keys') ∧
    keys' = filter (λ k, N' * 1024 * 1024 * 1024
                         ≤ _sort_by_total_size stat_map tagmap k) keys ∧
    keys' `sublist_of` keys.
Proof.
  intros Hne Hne' HN HN' Hle. rewrite !rank_floor, HN, HN' by done.
  destruct (Py.keys tagmap) as [|k0 ks] eqn:Hkeys.
  { exists [], []. split_and!; done. }
  rewrite <-Hkeys. clear Hkeys. eexists _, _. split; [done|]. split; [done|].
  assert (Py.sorted (_sort_by_count tagmap) false
            (filter (λ k, N' * 1024 * 1024 * 1024
                          ≤ _sort_by_total_size stat_map tagmap k) (Py.keys tagmap))
          = filter (λ k, N' * 1024 * 1024 * 1024
                         ≤ _sort_by_total_size stat_map tagmap k)
              (Py.sorted (_sort_by_count tagmap) false
                 (filter (λ k, N * 1024 * 1024 * 1024
                               ≤ _sort_by_total_size stat_map tagmap k)
                    (Py.keys tagmap)))) as ->.
  { rewrite sorted_filter_comm. f_equal. symmetry.
    apply list_filter_filter_l. intros k ?. lia. }
  split; [done|]. apply sublist_filter.
Qed.

Lemma floor_raise_witness :
  rank (Scenario.world [] ∅)
       {[ "/a" := 3 * 1024 * 1024 * 1024; "/b" := 1024 * 1024 * 1024 ]}%string
       [("T1", {["/a"; "/b"]}); ("T2", {["/b"]}); ("T3", {["/a"]})]%string
       (Some "2"%string)
  = ([], inr ["T3"; "T1"]%string).
Proof.
  destruct (floor_raise (Scenario.world [] ∅)
              {[ "/a" := 3 * 1024 * 1024 * 1024; "/b" := 1024 * 1024 * 1024 ]}%string
              [("T1", {["/a"; "/b"]}); ("T2", {["/b"]}); ("T3", {["/a"]})]%string
              "1"%string "2"%string 1 2)
    as (keys & keys' & Hk & -> & Hk' & _); try done.
  injection Hk as <-. rewrite Hk'. reflexivity.
Defined.

(** X10.  A floor that is zero or negative lets every aggregated tag
    through: the floor-mode ranking is then the stable sort of all the
    aggregated tags by file count. *)
Theorem floor_nonpositive w tr limit db stat_map tagmap keys min_gb N :
  ranking w = (tr, inr (limit, db, stat_map, tagmap, keys)) →
  floor_flag w = Some min_gb → min_gb ≠ EmptyString → builtin_int w min_gb = Some N →
  N ≤ 0 →
  keys = Py.sorted (_sort_by_count tagmap) false (Py.keys tagmap) ∧
  keys ≡ₚ tags db.
Proof.
  intros Hrank Hflag Hne HN Hle.
  apply ranking_inv in Hrank as (_ & _ & Hrk & trf & Hf & _).
  apply fetch_locals in Hf as (_ & Hkeys & _ & _ & _ & _ & _ & _ & Htot & _).
  rewrite Hflag, rank_floor, HN in Hrk by done.
  assert (keys = Py.sorted (_sort_by_count tagmap) false (Py.keys tagmap)) as ->.
  { rewrite <-(filter_all (λ k, N * 1024 * 1024 * 1024
                                ≤ _sort_by_total_size stat_map tagmap k)
                 (Py.keys tagmap)) at 1.
    - destruct (Py.keys tagmap); by injection Hrk as <-.
    - intros k _. rewrite Htot. pose proof (totalSize_nonneg w db k). lia. }
  split; [done|]. by rewrite PyFacts.sorted_perm, Hkeys.
Qed.

Lemma floor_nonpositive_witness :
  emitted (main (Scenario.world ["10"%string] (Scenario.floor_env "-5"))).1
  = ["T2"; "T1"]%string ∧
  ["T2"; "T1"]%string ≡ₚ tags Scenario.db.
Proof.
  split; [reflexivity|].
  exact (proj2 (floor_nonpositive
                  (Scenario.world ["10"%string] (Scenario.floor_env "-5"))
                  _ _ _ _ _ _ "-5"%string (-5)
                  eq_refl eq_refl ltac:(discriminate) eq_refl ltac:(done))).
Defined.

(** ** The limit *)

Lemma take_prefix_le {A} (l : list A) a b :
  (a ≤ b)%nat → take a l `prefix_of` take b l.
Proof.
  intros Hab. replace (take a l) with (take a (take b l)); [apply prefix_take|].
  rewrite take_take. f_equal. lia.
Qed.

Lemma slice_to_mono {A} (l : list A) n m :
  n ≤ m → 0 ≤ n ∨ m < 0 → Py.slice_to l n `prefix_of` Py.slice_to l m.
Proof.
  intros Hnm [Hn|Hm].
  - rewrite !PyFacts.slice_to_nonneg by lia. apply take_prefix_le. lia.
  - rewrite !PyFacts.slice_to_neg by lia. apply take_prefix_le. lia.
Qed.

(** The report of a longer list of keys starts with the report of its
    initial part. *)
Lemma report_prefix stat_map tagmap db keys1 keys2 :
  stdout (report stat_map tagmap db keys1).1
  `prefix_of` stdout (report stat_map tagmap db (keys1 ++ keys2)).1.
Proof.
  unfold report. rewrite for_each_app.
  destruct (for_each (report_row stat_map tagmap db) tt keys1) as [tr1 [e|u]].
  - by rewrite (bind_inl _ _ tr1 e).
  - rewrite (bind_inr _ _ tr1 u) by done. cbn [fst].
    rewrite stdout_app. by apply prefix_app_r.
Qed.

Lemma main_stdout w :
  stdout (main w).1 =
  match (ranking w).2 with
  | inl _ => []
  | inr (limit, db, stat_map, tagmap, keys) =>
      stdout (report stat_map tagmap db (Py.slice_to keys limit)).1
  end.
Proof.
  pose proof (ranking_trace w) as [Hout _]. rewrite main_eq.
  destruct (ranking w) as [tr [e|[[[[limit db] stat_map] tagmap] keys]]];
    cbn [fst snd] in *; [done|].
  destruct (report stat_map tagmap db (Py.slice_to keys limit)) as [trr [e|u]];
    cbn [fst]; rewrite !stdout_app, Hout; [done|]. cbn. by rewrite app_nil_r.
Qed.

(** Up to the limit, the part of the run before the report depends only
    on the environment, the store and the file sizes. *)
Lemma ranking_limit_indep w w' n m :
  environ w' = environ w → store w' = store w → (∀ p, fs w' p = fs w p) →
  (∀ s, builtin_int w' s = builtin_int w s) →
  parse_limit w = ([], inr n) → parse_limit w' = ([], inr m) →
  match (ranking w).2, (ranking w').2 with
  | inl _, inl _ => True
  | inr (l, db, stat_map, tagmap, keys), inr (l', db', stat_map', tagmap', keys') =>
      l = n ∧ l' = m ∧ db' = db ∧ stat_map' = stat_map ∧ tagmap' = tagmap ∧
      keys' = keys
  | _, _ => False
  end.
Proof.
  intros Henv Hstore Hfs Hint Hn Hm. rewrite !ranking_eq, Hn, Hm. unfold floor_flag.
  rewrite Henv, Hstore. cbn [snd]. destruct (store w) as [db|]; [|done].
  rewrite (for_each_ext (fetch_row w' db) (fetch_row w db))
    by (intros [stat_map tagmap] row; by rewrite !fetch_row_eq, Hfs).
  destruct (for_each (fetch_row w db) (∅, []) (files db))
    as [trf [e|[stat_map tagmap]]]; [done|]. cbn [snd].
  rewrite (rank_ext w w') by done.
  by destruct (rank w stat_map tagmap
                 (environ w !! "SORT_BY_COUNT_WITH_MIN_GB"%string)).2.
Qed.

(** X11.  On the same environment, store and files, under the same
    interpreter, a larger limit of the same sign only appends report
    lines: the report for the smaller limit is an initial part of the
    report for the larger one. *)
Theorem larger_limit_appends w w' n m :
  environ w' = environ w → store w' = store w → (∀ p, fs w' p = fs w p) →
  (∀ s, builtin_int w' s = builtin_int w s) →
  parse_limit w = ([], inr n) → parse_limit w' = ([], inr m) →
  n ≤ m → 0 ≤ n ∨ m < 0 →
  stdout (main w).1 `prefix_of` stdout (main w').1.
Proof.
  intros Henv Hstore Hfs Hint Hn Hm Hnm Hsign.
  pose proof (ranking_limit_indep w w' n m Henv Hstore Hfs Hint Hn Hm) as Hind.
  rewrite !main_stdout.
  destruct (ranking w).2 as [e|[[[[l db] stat_map] tagmap] keys]];
    destruct (ranking w').2 as [e'|[[[[l' db'] stat_map'] tagmap'] keys']];
    try done.
  destruct Hind as (-> & -> & -> & -> & -> & ->).
  destruct (slice_to_mono keys n m Hnm Hsign) as [more ->].
  apply report_prefix.
Qed.

Lemma larger_limit_appends_witness :
  emitted (main (Scenario.world ["1"%string] ∅)).1 = ["T1"%string] ∧
  stdout (main (Scenario.world ["1"%string] ∅)).1
  `prefix_of` stdout (main (Scenario.world ["2"%string] ∅)).1.
Proof.
  split; [reflexivity|].
  apply (larger_limit_appends (Scenario.world ["1"%string] ∅)
           (Scenario.world ["2"%string] ∅) 1 2); try done. by left.
Defined.
